(** * Conecta 4: a shallow embedding of [conecta4.js] and its properties

    The program keeps three global variables, [board] (6 rows of 7
    numbers: 0 is an empty cell, 1 and 2 are the players' pieces),
    [currentPlayer] and [playing].  They are the fields of [state] here
    and every function takes the values it reads and returns the ones it
    writes.  JavaScript numbers that the program uses are small integers
    and are modelled by [Z]; row and column numbers are [Z] too, because
    [countDirection] walks them below zero before testing them. *)

From stdpp Require Import base list strings pretty.
From Stdlib Require Import ZArith Lia.

Local Open Scope Z_scope.

(** ** The grid *)

Definition ROWS : Z := 6.
Definition COLS : Z := 7.

Abbreviation grid := (list (list Z)).

(** [Array.from({ length: ROWS }, () => Array(COLS).fill(0))] *)
Definition emptyBoard : grid :=
  replicate (Z.to_nat ROWS) (replicate (Z.to_nat COLS) 0).

(** The shape every board of the program has: it is created with this
    shape and only ever updated cell by cell. *)
Definition wf_board (b : grid) : Prop :=
  length b = Z.to_nat ROWS ∧ Forall (λ row, length row = Z.to_nat COLS) b.

(** [board[r][c]].  An index that is negative or past the end of an array
    reads [undefined], written [None].  (Reading [board[r][c]] when
    [board[r]] itself is [undefined] throws in JavaScript; on a well
    formed board the program only reads rows [0 <= r < ROWS], so this does
    not happen.) *)
Definition cell (b : grid) (r c : Z) : option Z :=
  if (r <? 0) || (c <? 0) then None
  else b !! Z.to_nat r ≫= λ row, row !! Z.to_nat c.

(** [x === v] for a cell read [x] and a number [v]: [undefined] is equal
    to no number. *)
Definition strictEq (x : option Z) (v : Z) : bool :=
  match x with
  | Some n => n =? v
  | None => false
  end.

(** [board[r][c] = v], used with [r] and [c] inside the grid. *)
Definition setCell (b : grid) (r c v : Z) : grid :=
  match b !! Z.to_nat r with
  | Some row => <[Z.to_nat r := <[Z.to_nat c := v]> row]> b
  | None => b
  end.

(** ** Dropping a piece (the [for] loop of [askMove], lines 40-42 and 57) *)

Inductive dropResult :=
| Landed (r : Z) (b' : grid)
| ColumnFullError.

(** The loop [for (let r = n - 1; r >= 0; r--)] whose body tests
    [board[r][col] === 0] and, on the first success, assigns
    [board[r][col] = player] and leaves; [n] is the number of rows still
    to visit. *)
Fixpoint dropLoop (n : nat) (b : grid) (col player : Z) : dropResult :=
  match n with
  | O => ColumnFullError
  | S n' =>
      let r := Z.of_nat n' in
      if strictEq (cell b r col) 0 then Landed r (setCell b r col player)
      else dropLoop n' b col player
  end.

Definition dropPiece (b : grid) (col player : Z) : dropResult :=
  dropLoop (Z.to_nat ROWS) b col player.

(** ** [isBoardFull] *)

Definition isBoardFull (b : grid) : bool :=
  forallb (λ row, forallb (λ x, negb (x =? 0)) row) b.

(** ** [countDirection] and [checkWin] *)

(** The [while] loop of [countDirection], with [r] and [c] already
    advanced once.  [fuel] bounds the number of times the loop condition
    is evaluated; [None] means the bound was reached.  The loop has no
    bound of its own: with [dr = dc = 0] on a matching cell it runs for
    ever. *)
Fixpoint countLoop (fuel : nat) (b : grid) (r c dr dc player cnt : Z)
  : option Z :=
  match fuel with
  | O => None
  | S fuel' =>
      if (r >=? 0) && (r <? ROWS) && (c >=? 0) && (c <? COLS)
         && strictEq (cell b r c) player
      then countLoop fuel' b (r + dr) (c + dc) dr dc player (cnt + 1)
      else Some cnt
  end.

Definition countDirection (fuel : nat) (b : grid) (r c dr dc player : Z)
  : option Z :=
  countLoop fuel b (r + dr) (c + dc) dr dc player 0.

Definition directions : list (Z * Z) := [(0, 1); (1, 0); (1, 1); (1, -1)].

(** The body of the [for ... of directions] loop: [Some true] is
    [return true], [Some false] goes on to the next direction. *)
Definition lineCount (fuel : nat) (b : grid) (row col player : Z)
    (d : Z * Z) : option Z :=
  let '(dr, dc) := d in
  n1 ← countDirection fuel b row col dr dc player;
  n2 ← countDirection fuel b row col (- dr) (- dc) player;
  Some (1 + n1 + n2).

Fixpoint checkDirections (fuel : nat) (b : grid) (row col player : Z)
    (ds : list (Z * Z)) : option bool :=
  match ds with
  | [] => Some false
  | d :: ds' =>
      count ← lineCount fuel b row col player d;
      if count >=? 4 then Some true
      else checkDirections fuel b row col player ds'
  end.

Definition checkWin (fuel : nat) (b : grid) (row col player : Z)
  : option bool :=
  checkDirections fuel b row col player directions.

(** ** Reading the column: [parseInt]

    A JavaScript string is a sequence of UTF-16 code units.  [parseInt]
    with no radix skips leading white space, reads an optional sign, then
    an optional [0x] or [0X] (which selects radix 16), then the longest
    run of digits of the radix; it ignores what follows and gives [NaN]
    when the run is empty.  [None] stands for [NaN].

    The result is an IEEE double in JavaScript and an exact integer here.
    The program only subtracts 1 from it and compares it with 0 and
    [COLS], and rounding to a double is monotone and exact on small
    integers, so both give the same answers and the same column. *)

Definition jsString : Type := list N.

Definition codeUnits (s : string) : jsString :=
  map Ascii.N_of_ascii (String.list_ascii_of_string s).

(** White space and line terminators of ECMAScript. *)
Definition isWhiteSpace (u : N) : bool :=
  let u := Z.of_N u in
  (u =? 0x9) || (u =? 0xA) || (u =? 0xB) || (u =? 0xC) || (u =? 0xD)
  || (u =? 0x20) || (u =? 0xA0) || (u =? 0x1680)
  || ((0x2000 <=? u) && (u <=? 0x200A))
  || (u =? 0x2028) || (u =? 0x2029) || (u =? 0x202F) || (u =? 0x205F)
  || (u =? 0x3000) || (u =? 0xFEFF).

Fixpoint trimStart (s : jsString) : jsString :=
  match s with
  | u :: s' => if isWhiteSpace u then trimStart s' else s
  | [] => []
  end.

Definition digitValue (radix : Z) (u : N) : option Z :=
  let u := Z.of_N u in
  let d := if (48 <=? u) && (u <=? 57) then u - 48
           else if (97 <=? u) && (u <=? 122) then u - 97 + 10
           else if (65 <=? u) && (u <=? 90) then u - 65 + 10
           else radix in
  if d <? radix then Some d else None.

(** Value of the longest prefix of digits, [acc] being the value read so
    far ([None]: no digit yet). *)
Fixpoint parseDigits (radix : Z) (s : jsString) (acc : option Z) : option Z :=
  match s with
  | u :: s' =>
      match digitValue radix u with
      | Some d => parseDigits radix s' (Some (default 0 acc * radix + d))
      | None => acc
      end
  | [] => acc
  end.

Definition parseInt (input : jsString) : option Z :=
  let s := trimStart input in
  let '(sign, s) :=
    match s with
    | 45%N :: s' => (-1, s')
    | 43%N :: s' => (1, s')
    | _ => (1, s)
    end in
  let '(radix, s) :=
    match s with
    | 48%N :: x :: s' =>
        if (x =? 120)%N || (x =? 88)%N then (16, s') else (10, s)
    | _ => (10, s)
    end in
  Z.mul sign <$> parseDigits radix s None.

(** ** What the program writes *)

Inductive output :=
| Clear                      (* console.clear() *)
| Log (line : string)        (* console.log(line) *)
| Question (prompt : string) (* rl.question(prompt, ...) *)
| Close.                     (* rl.close() *)

(** The three [if]s of the inner loop of [printBoard]. *)
Definition cellStr (rowStr : string) (x : option Z) : string :=
  let rowStr := if strictEq x 0 then rowStr +:+ "[ ]" else rowStr in
  let rowStr := if strictEq x 1 then rowStr +:+ "[🔴]" else rowStr in
  if strictEq x 2 then rowStr +:+ "[🟡]" else rowStr.

Definition rowStr (b : grid) (r : Z) : string :=
  fold_left (λ acc c, cellStr acc (cell b r c)) (seqZ 0 COLS) "".

Definition newline : string := String (Ascii.ascii_of_nat 10) EmptyString.

Definition printBoard (b : grid) : list output :=
  Clear
  :: Log ("Conecta 4 (Jug1 = 🔴, Jug2 = 🟡)" +:+ newline)
  :: map (λ r, Log (rowStr b r)) (seqZ 0 ROWS)
  ++ [Log "  1  2  3  4  5  6  7"].

(** ** The turn loop *)

Record state := State {
  board : grid;
  currentPlayer : Z;
  playing : bool
}.

(** [let board = ...; let currentPlayer = 1; let playing = true;] *)
Definition initialState : state := State emptyBoard 1 true.

Definition prompt (player : Z) : string :=
  "Turno Jugador " +:+ pretty player +:+ " ("
  +:+ (if player =? 1 then "🔴" else "🟡")
  +:+ ") - Elige columna (1-7): ".

Definition invalidColumn : output := Log "Columna inválida.".
Definition columnFull : output := Log "Columna llena, elige otra.".
Definition winner (player : Z) : output :=
  Log ("¡Jugador " +:+ pretty player +:+ " gana!").
Definition draw : output := Log "¡Empate, tablero lleno!".

(** What the callback does once the piece has landed on board [b'] and
    [checkWin] has answered [win] (lines 43-54). *)
Definition evaluate (s : state) (b' : grid) (win : bool)
  : state * list output :=
  if win then
    (State b' (currentPlayer s) false,
     printBoard b' ++ [winner (currentPlayer s)])
  else if isBoardFull b' then
    (State b' (currentPlayer s) false, printBoard b' ++ [draw])
  else
    (State b' (if currentPlayer s =? 1 then 2 else 1) (playing s),
     printBoard b').

(** The callback given to [rl.question], up to its final call of
    [askMove]: the new values of the globals and what was written. *)
Definition onLine (fuel : nat) (s : state) (input : jsString)
  : option (state * list output) :=
  match (λ n, n - 1) <$> parseInt input with
  | None => Some (s, [invalidColumn])
  | Some col =>
      if (col <? 0) || (col >=? COLS) then Some (s, [invalidColumn])
      else
        match dropPiece (board s) col (currentPlayer s) with
        | Landed r b' =>
            win ← checkWin fuel b' r col (currentPlayer s);
            Some (evaluate s b' win)
        | ColumnFullError => Some (s, [columnFull])
        end
  end.

(** [askMove], run on the lines that the terminal delivers one after the
    other.  When [playing] is false it closes the interface and nothing
    is read any more; when the lines run out it is left waiting on its
    last question. *)
Fixpoint askMove (fuel : nat) (s : state) (inputs : list jsString)
  : option (state * list output) :=
  if playing s then
    match inputs with
    | [] => Some (s, [Question (prompt (currentPlayer s))])
    | input :: rest =>
        '(s', out) ← onLine fuel s input;
        '(s'', out') ← askMove fuel s' rest;
        Some (s'', Question (prompt (currentPlayer s)) :: out ++ out')
    end
  else Some (s, [Close]).

(** The whole program: [printBoard(); askMove();]. *)
Definition main (fuel : nat) (inputs : list jsString)
  : option (state * list output) :=
  '(s, out) ← askMove fuel initialState inputs;
  Some (s, printBoard emptyBoard ++ out).

(** ** Notions used to state the properties *)

(** A cell of the grid that holds a piece. *)
Definition nonEmpty (b : grid) (r c : Z) : Prop :=
  ∃ v, cell b r c = Some v ∧ v ≠ 0.

(** Attempts to drop the pieces of [players], one after the other, into
    the same column; a failed attempt leaves the board as it is. *)
Fixpoint dropAll (b : grid) (col : Z) (players : list Z) : list dropResult :=
  match players with
  | [] => []
  | player :: rest =>
      let res := dropPiece b col player in
      res :: dropAll (match res with
                      | Landed _ b' => b'
                      | ColumnFullError => b
                      end) col rest
  end.

(** The boards that drops can produce from the empty board. *)
Inductive reachable : grid → Prop :=
| reachable_empty : reachable emptyBoard
| reachable_drop b col player r b' :
    reachable b → dropPiece b col player = Landed r b' → reachable b'.

(** In a column, the cell above an empty cell is empty. *)
Definition stacked (b : grid) : Prop :=
  ∀ r c, 0 ≤ r → cell b (r + 1) c = Some 0 → cell b r c = Some 0.

(** Cell [(r, c)] is a cell of the grid and holds a piece of [player]. *)
Definition holds (b : grid) (player r c : Z) : Prop :=
  0 ≤ r < ROWS ∧ 0 ≤ c < COLS ∧ cell b r c = Some player.

(** At least four cells of [player], next to one another on the line
    through [(row, col)] with step [d], one of them being [(row, col)]:
    the cells at steps [lo] to [hi] from it. *)
Definition fourInLine (b : grid) (player row col : Z) (d : Z * Z) : Prop :=
  ∃ lo hi, lo ≤ 0 ≤ hi ∧ 4 ≤ hi - lo + 1
    ∧ ∀ i, lo ≤ i ≤ hi → holds b player (row + i * d.1) (col + i * d.2).

(** [n] cells of [player] follow [(row, col)] in direction [(dr, dc)],
    and the next one is off the grid or is not a piece of [player]. *)
Definition runLength (b : grid) (player row col dr dc n : Z) : Prop :=
  0 ≤ n
  ∧ (∀ k, 1 ≤ k ≤ n → holds b player (row + k * dr) (col + k * dc))
  ∧ ¬ holds b player (row + (n + 1) * dr) (col + (n + 1) * dc).

(** A line of input that names a column of the grid in which the piece
    of the current player lands on row [r], giving board [b']. *)
Definition legalMove (s : state) (input : jsString) (col r : Z) (b' : grid)
  : Prop :=
  parseInt input = Some (col + 1) ∧ 0 ≤ col < COLS
  ∧ dropPiece (board s) col (currentPlayer s) = Landed r b'.

(** The loop leaves the grid after at most [COLS] cells when the step is
    not zero: the distance to the side it walks to decreases. *)
Definition distance (dr dc r c : Z) : Z :=
  if 0 <? dr then ROWS - r
  else if dr <? 0 then r + 1
  else if 0 <? dc then COLS - c
  else c + 1.

(** Three pieces of player 1 at the left of the bottom row. *)
Definition threeInARow : grid :=
  [ [0;0;0;0;0;0;0];
    [0;0;0;0;0;0;0];
    [0;0;0;0;0;0;0];
    [0;0;0;0;0;0;0];
    [0;0;0;0;0;0;0];
    [1;1;1;0;0;0;0] ].

(** Four pieces of player 1 stacked in column 3. *)
Definition fourStacked : grid :=
  [ [0;0;0;0;0;0;0];
    [0;0;0;0;0;0;0];
    [0;0;0;1;0;0;0];
    [0;0;0;1;0;0;0];
    [0;0;0;1;0;0;0];
    [0;0;0;1;0;0;0] ].

(** The lines typed in a short game that player 1 wins on the bottom row. *)
Definition sampleGame : list jsString :=
  map codeUnits ["4"; "4"; "3"; "3"; "2"; "2"; "1"].

(** Column 2 holds six pieces, dropped in turn by players 1 and 2. *)
Definition columnTwoFull : grid :=
  [ [0;0;2;0;0;0;0];
    [0;0;1;0;0;0;0];
    [0;0;2;0;0;0;0];
    [0;0;1;0;0;0;0];
    [0;0;2;0;0;0;0];
    [0;0;1;0;0;0;0] ].

(** A position after five moves. *)
Definition sampleBoard : grid :=
  [ [0;0;0;0;0;0;0];
    [0;0;0;0;0;0;0];
    [0;0;0;0;0;0;0];
    [0;0;0;0;0;0;0];
    [0;0;0;0;2;0;0];
    [1;1;1;0;2;0;0] ].

(** ** Notions used for the whole game *)

(** The values the program keeps in its globals: a 6 x 7 board of 0, 1
    and 2, and player 1 or 2. *)
Definition validState (s : state) : Prop :=
  wf_board (board s)
  ∧ (∀ r c v, cell (board s) r c = Some v → v = 0 ∨ v = 1 ∨ v = 2)
  ∧ (currentPlayer s = 1 ∨ currentPlayer s = 2).

(** Four cells of [player] from [(r, c)] on, with step [d]. *)
Definition lineOfFour (b : grid) (player r c : Z) (d : Z * Z) : Prop :=
  ∀ i, 0 ≤ i < 4 → holds b player (r + i * d.1) (c + i * d.2).

(** [player] has four pieces in a line somewhere on the board. *)
Definition hasLine (b : grid) (player : Z) : Prop :=
  ∃ r c d, d ∈ directions ∧ lineOfFour b player r c d.

(** The number of cells of the board that hold [v]. *)
Definition pieces (b : grid) (v : Z) : nat :=
  length (filter (λ x, x = v) (concat b)).

(** The number of times the screen is cleared, which [printBoard] does
    once each time it is called. *)
Definition isClear (o : output) : bool :=
  match o with
  | Clear => true
  | _ => false
  end.

Definition clears (out : list output) : nat :=
  length (List.filter isClear out).

(** Nobody has four in a line. *)
Definition noLine (b : grid) : Prop := ∀ p, p ≠ 0 → ¬ hasLine b p.

(** What is true of the globals between two lines of input: while
    [playing], a cell is empty and nobody has four in a line; afterwards
    the current player has four in a line, or the board is full and
    nobody has. *)
Definition gameState (s : state) : Prop :=
  validState s
  ∧ (playing s = true → isBoardFull (board s) = false ∧ noLine (board s))
  ∧ (playing s = false →
     hasLine (board s) (currentPlayer s)
     ∨ (isBoardFull (board s) = true ∧ noLine (board s))).

(** What the board shows for one cell. *)
Definition symbol (x : option Z) : string :=
  if strictEq x 0 then "[ ]"
  else if strictEq x 1 then "[🔴]"
  else if strictEq x 2 then "[🟡]"
  else "".

(** Whose turn it is, told from the number of pieces: while [playing],
    player 1 is to move when both have as many pieces and player 2 when
    player 1 has one more; once the game has stopped the current player
    is the one who moved last. *)
Definition turnOrder (s : state) : Prop :=
  if playing s then
    (currentPlayer s = 1 ∧ pieces (board s) 1 = pieces (board s) 2)
    ∨ (currentPlayer s = 2 ∧ pieces (board s) 1 = S (pieces (board s) 2))
  else
    (currentPlayer s = 1 ∧ pieces (board s) 1 = S (pieces (board s) 2))
    ∨ (currentPlayer s = 2 ∧ pieces (board s) 1 = pieces (board s) 2).

(** * Properties *)

(** ** The functions on some inputs *)

Example dropPiece_sample :
  dropPiece sampleBoard 3 1 = Landed 5 (setCell sampleBoard 5 3 1).
Proof. reflexivity. Qed.

Example dropPiece_threeInARow :
  dropPiece threeInARow 3 1
  = Landed 5 [ [0;0;0;0;0;0;0]; [0;0;0;0;0;0;0]; [0;0;0;0;0;0;0];
               [0;0;0;0;0;0;0]; [0;0;0;0;0;0;0]; [1;1;1;1;0;0;0] ].
Proof. reflexivity. Qed.

Example checkWin_horizontal :
  checkWin 8 (setCell threeInARow 5 3 1) 5 3 1 = Some true.
Proof. reflexivity. Qed.

Example checkWin_vertical : checkWin 8 fourStacked 2 3 1 = Some true.
Proof. reflexivity. Qed.

Example checkWin_other_player : checkWin 8 fourStacked 2 3 2 = Some false.
Proof. reflexivity. Qed.

Example countDirection_out_of_fuel :
  countDirection 3 fourStacked 2 3 1 0 1 = None.
Proof. reflexivity. Qed.

Example isBoardFull_sample : isBoardFull sampleBoard = false.
Proof. reflexivity. Qed.

Example parseInt_digits : parseInt (codeUnits "9") = Some 9.
Proof. reflexivity. Qed.

Example parseInt_prefix : parseInt (codeUnits "  3.7 abc") = Some 3.
Proof. reflexivity. Qed.

Example parseInt_hex : parseInt (codeUnits "-0x1fz") = Some (-31).
Proof. reflexivity. Qed.

Example parseInt_NaN : parseInt (codeUnits "abc") = None.
Proof. reflexivity. Qed.

Example parseInt_empty : parseInt (codeUnits "") = None.
Proof. reflexivity. Qed.

Example sampleGame_won :
  fst <$> askMove 8 initialState sampleGame
  = Some (State [ [0;0;0;0;0;0;0]; [0;0;0;0;0;0;0]; [0;0;0;0;0;0;0];
                  [0;0;0;0;0;0;0]; [0;2;2;2;0;0;0]; [1;1;1;1;0;0;0] ]
                1 false).
Proof. reflexivity. Qed.

(** ** Reading and writing cells *)

Lemma cell_lookup (b : grid) (r c : Z) :
  0 ≤ r → 0 ≤ c →
  cell b r c = b !! Z.to_nat r ≫= λ row, row !! Z.to_nat c.
Proof.
  intros Hr Hc. unfold cell.
  destruct (Z.ltb_spec r 0); [lia|]. destruct (Z.ltb_spec c 0); [lia|]. done.
Qed.

Lemma cell_negative (b : grid) (r c : Z) : r < 0 ∨ c < 0 → cell b r c = None.
Proof.
  intros H. unfold cell.
  destruct (Z.ltb_spec r 0); [done|]. destruct (Z.ltb_spec c 0); [done|]. lia.
Qed.

Lemma wf_board_row (b : grid) (r : Z) :
  wf_board b → 0 ≤ r < ROWS →
  ∃ row, b !! Z.to_nat r = Some row ∧ length row = Z.to_nat COLS.
Proof.
  intros [Hlen Hrows] Hr.
  destruct (lookup_lt_is_Some_2 b (Z.to_nat r)) as [row Hrow]; [lia|].
  exists row. split; [done|].
  rewrite Forall_forall in Hrows. apply Hrows.
  by apply list_elem_of_lookup_2 in Hrow.
Qed.

Lemma cell_inside (b : grid) (r c : Z) :
  wf_board b → 0 ≤ r < ROWS → 0 ≤ c < COLS → is_Some (cell b r c).
Proof.
  intros Hwf Hr Hc. destruct (wf_board_row b r Hwf Hr) as (row & Hrow & Hlen).
  rewrite cell_lookup, Hrow by lia. simpl.
  apply lookup_lt_is_Some_2. lia.
Qed.

Lemma cell_outside (b : grid) (r c : Z) :
  wf_board b → is_Some (cell b r c) → 0 ≤ r < ROWS ∧ 0 ≤ c < COLS.
Proof.
  intros [Hlen Hrows] [v Hv].
  destruct (Z.lt_ge_cases r 0); [by rewrite cell_negative in Hv by lia|].
  destruct (Z.lt_ge_cases c 0); [by rewrite cell_negative in Hv by lia|].
  rewrite cell_lookup in Hv by lia.
  destruct (b !! Z.to_nat r) as [row|] eqn:Hrow; [|done]. simpl in Hv.
  apply lookup_lt_Some in Hv. pose proof (lookup_lt_Some _ _ _ Hrow).
  rewrite Forall_forall in Hrows.
  apply list_elem_of_lookup_2, Hrows in Hrow. lia.
Qed.

Lemma wf_setCell (b : grid) (r c v : Z) :
  wf_board b → wf_board (setCell b r c v).
Proof.
  intros [Hlen Hrows]. unfold setCell.
  destruct (b !! Z.to_nat r) as [row|] eqn:Hrow; [|done].
  split; [by rewrite length_insert|].
  apply Forall_insert; [done|]. rewrite length_insert.
  rewrite Forall_forall in Hrows.
  by apply list_elem_of_lookup_2, Hrows in Hrow.
Qed.

Lemma cell_setCell_eq (b : grid) (r c v : Z) :
  wf_board b → 0 ≤ r < ROWS → 0 ≤ c < COLS →
  cell (setCell b r c v) r c = Some v.
Proof.
  intros Hwf Hr Hc. destruct (wf_board_row b r Hwf Hr) as (row & Hrow & Hlen).
  rewrite cell_lookup by lia. unfold setCell. rewrite Hrow.
  rewrite list_lookup_insert_eq by (apply lookup_lt_Some in Hrow; lia).
  simpl. apply list_lookup_insert_eq. lia.
Qed.

Lemma cell_setCell_ne (b : grid) (r c v r' c' : Z) :
  0 ≤ r → 0 ≤ c → (r', c') ≠ (r, c) →
  cell (setCell b r c v) r' c' = cell b r' c'.
Proof.
  intros Hr Hc Hne. unfold cell.
  destruct ((r' <? 0) || (c' <? 0)) eqn:Hneg; [done|].
  apply orb_false_iff in Hneg as [Hr' Hc'].
  apply Z.ltb_ge in Hr', Hc'.
  unfold setCell. destruct (b !! Z.to_nat r) as [row|] eqn:Hrow; [|done].
  destruct (decide (Z.to_nat r = Z.to_nat r')) as [Heq|Hneq].
  - rewrite <- Heq, Hrow.
    rewrite list_lookup_insert_eq by (by apply lookup_lt_Some in Hrow).
    simpl. apply list_lookup_insert_ne.
    intros Heqc. apply Hne. f_equal; lia.
  - by rewrite list_lookup_insert_ne.
Qed.

Lemma strictEq_true (x : option Z) (v : Z) : strictEq x v = true ↔ x = Some v.
Proof.
  destruct x as [n|]; simpl; [|done].
  rewrite Z.eqb_eq. split; congruence.
Qed.

Lemma strictEq_false (x : option Z) (v : Z) : strictEq x v = false ↔ x ≠ Some v.
Proof.
  rewrite <- strictEq_true. by destruct (strictEq x v).
Qed.

(** ** The drop loop *)

Lemma dropLoop_Landed (n : nat) (b : grid) (col player r : Z) (b' : grid) :
  dropLoop n b col player = Landed r b' →
  0 ≤ r < Z.of_nat n ∧ cell b r col = Some 0 ∧ b' = setCell b r col player
  ∧ ∀ r', r < r' < Z.of_nat n → cell b r' col ≠ Some 0.
Proof.
  induction n as [|n IH]; simpl; [done|].
  destruct (strictEq (cell b (Z.of_nat n) col) 0) eqn:Hcell.
  - intros [= <- <-]. apply strictEq_true in Hcell.
    split; [lia|]. split; [done|]. split; [done|]. intros r' Hr'. lia.
  - intros Hdrop. destruct (IH Hdrop) as (Hr & Hempty & Hb' & Hbelow).
    apply strictEq_false in Hcell.
    split; [lia|]. split; [done|]. split; [done|].
    intros r' Hr'. destruct (decide (r' = Z.of_nat n)) as [->|]; [done|].
    apply Hbelow. lia.
Qed.

Lemma dropLoop_ColumnFullError (n : nat) (b : grid) (col player : Z) :
  dropLoop n b col player = ColumnFullError ↔
  ∀ r, 0 ≤ r < Z.of_nat n → cell b r col ≠ Some 0.
Proof.
  induction n as [|n IH]; simpl.
  - split; [intros _ r Hr; lia | done].
  - destruct (strictEq (cell b (Z.of_nat n) col) 0) eqn:Hcell.
    + apply strictEq_true in Hcell. split; [done|].
      intros Hall. destruct (Hall (Z.of_nat n)); [lia|done].
    + apply strictEq_false in Hcell. rewrite IH. split.
      * intros Hall r Hr.
        destruct (decide (r = Z.of_nat n)) as [->|]; [done|]. apply Hall. lia.
      * intros Hall r Hr. apply Hall. lia.
Qed.

Lemma wf_emptyBoard : wf_board emptyBoard.
Proof. split; [done|]. repeat constructor. Qed.

Lemma wf_sampleBoard : wf_board sampleBoard.
Proof. split; [done|]. repeat constructor. Qed.

Lemma nonEmpty_iff (b : grid) (r c : Z) :
  wf_board b → 0 ≤ r < ROWS → 0 ≤ c < COLS →
  nonEmpty b r c ↔ cell b r c ≠ Some 0.
Proof.
  intros Hwf Hr Hc. destruct (cell_inside b r c Hwf Hr Hc) as [v Hv].
  unfold nonEmpty. rewrite Hv. split.
  - intros (v' & [= <-] & Hne). congruence.
  - intros Hne. exists v. split; [done|]. congruence.
Qed.

(** C1.  On a column of the grid that has an empty cell, the drop lands:
    it returns a row [r] of the grid whose cell was empty, all cells of
    the column below [r] hold a piece, no other row has these two
    properties past [r], and the new board is the old one with cell
    [(r, c)] set to [player] and every other cell unchanged. *)
Theorem dropPiece_lands_on_lowest_empty (b : grid) (c player : Z) :
  wf_board b → 0 ≤ c < COLS →
  (∃ r0, 0 ≤ r0 < ROWS ∧ cell b r0 c = Some 0) →
  ∃ r b',
    dropPiece b c player = Landed r b'
    ∧ 0 ≤ r < ROWS
    ∧ cell b r c = Some 0
    ∧ (∀ r', r < r' < ROWS → nonEmpty b r' c)
    ∧ (∀ r2, 0 ≤ r2 < ROWS → cell b r2 c = Some 0 →
             (∀ r', r2 < r' < ROWS → nonEmpty b r' c) → r2 ≤ r)
    ∧ cell b' r c = Some player
    ∧ (∀ r' c', (r', c') ≠ (r, c) → cell b' r' c' = cell b r' c').
Proof.
  intros Hwf Hc (r0 & Hr0 & Hempty0). unfold dropPiece.
  destruct (dropLoop (Z.to_nat ROWS) b c player) as [r b'|] eqn:Hdrop.
  - apply dropLoop_Landed in Hdrop as (Hr & Hempty & -> & Hbelow).
    rewrite Z2Nat.id in Hr, Hbelow by done.
    exists r, (setCell b r c player).
    split; [done|]. split; [done|]. split; [done|]. split.
    { intros r' Hr'. apply nonEmpty_iff; [done|lia|done|]. by apply Hbelow. }
    split.
    { intros r2 Hr2 Hempty2 Hbelow2.
      destruct (Z.le_gt_cases r2 r) as [|Hlt]; [done|].
      destruct (Hbelow r2); [lia|done]. }
    split; [by apply cell_setCell_eq|].
    intros r' c' Hne. apply cell_setCell_ne; [lia|lia|done].
  - rewrite dropLoop_ColumnFullError in Hdrop.
    destruct (Hdrop r0); [by rewrite Z2Nat.id|done].
Qed.

Lemma dropPiece_lands_on_lowest_empty_witness :
  ∃ r b',
    dropPiece sampleBoard 4 1 = Landed r b'
    ∧ 0 ≤ r < ROWS
    ∧ cell sampleBoard r 4 = Some 0
    ∧ (∀ r', r < r' < ROWS → nonEmpty sampleBoard r' 4)
    ∧ (∀ r2, 0 ≤ r2 < ROWS → cell sampleBoard r2 4 = Some 0 →
             (∀ r', r2 < r' < ROWS → nonEmpty sampleBoard r' 4) → r2 ≤ r)
    ∧ cell b' r 4 = Some 1
    ∧ (∀ r' c', (r', c') ≠ (r, 4) → cell b' r' c' = cell sampleBoard r' c').
Proof.
  apply (dropPiece_lands_on_lowest_empty sampleBoard 4 1).
  - apply wf_sampleBoard.
  - unfold COLS. lia.
  - exists 0. split; [unfold ROWS; lia | reflexivity].
Defined.

(** ** Filling a column *)

(** A column whose [h] lowest cells hold pieces and whose other cells
    are empty. *)
Lemma dropPiece_on_stack (b : grid) (c player h : Z) :
  0 ≤ h ≤ ROWS →
  (∀ r, 0 ≤ r < ROWS - h → cell b r c = Some 0) →
  (∀ r, ROWS - h ≤ r < ROWS → cell b r c ≠ Some 0) →
  dropPiece b c player =
    if decide (h < ROWS) then Landed (ROWS - 1 - h) (setCell b (ROWS - 1 - h) c player)
    else ColumnFullError.
Proof.
  intros Hh Hempty Hfilled. unfold dropPiece.
  destruct (dropLoop (Z.to_nat ROWS) b c player) as [r b'|] eqn:Hdrop.
  - apply dropLoop_Landed in Hdrop as (Hr & Hcell & -> & Hbelow).
    rewrite Z2Nat.id in Hr, Hbelow by done.
    assert (r < ROWS - h).
    { destruct (Z.lt_ge_cases r (ROWS - h)) as [|Hge]; [done|].
      destruct (Hfilled r); [lia|done]. }
    assert (ROWS - 1 - h ≤ r).
    { destruct (Z.le_gt_cases (ROWS - 1 - h) r) as [|Hgt]; [done|].
      destruct (Hbelow (ROWS - 1 - h)); [lia|]. apply Hempty. lia. }
    rewrite decide_True by lia. by replace (ROWS - 1 - h) with r by lia.
  - rewrite dropLoop_ColumnFullError, Z2Nat.id in Hdrop by done.
    destruct (decide (h < ROWS)) as [Hlt|]; [|done].
    destruct (Hdrop (ROWS - 1 - h)); [lia|]. apply Hempty. lia.
Qed.

Lemma dropAll_on_stack (players : list Z) (b : grid) (c h : Z) :
  wf_board b → 0 ≤ c < COLS → 0 ≤ h ≤ ROWS →
  (∀ r, 0 ≤ r < ROWS - h → cell b r c = Some 0) →
  (∀ r, ROWS - h ≤ r < ROWS → cell b r c ≠ Some 0) →
  Forall (λ p, p ≠ 0) players →
  ∀ i : nat, (i < length players)%nat →
    (h + Z.of_nat i < ROWS →
       ∃ b', dropAll b c players !! i
             = Some (Landed (ROWS - 1 - h - Z.of_nat i) b'))
    ∧ (ROWS ≤ h + Z.of_nat i →
       dropAll b c players !! i = Some ColumnFullError).
Proof.
  revert b h. induction players as [|p ps IH];
    intros b h Hwf Hc Hh Hempty Hfilled Hps i Hi.
  { simpl in Hi. lia. }
  apply Forall_cons in Hps as [Hp Hps]. simpl.
  rewrite (dropPiece_on_stack b c p h Hh Hempty Hfilled).
  destruct i as [|i].
  { simpl. rewrite Z.add_0_r, Z.sub_0_r.
    destruct (decide (h < ROWS)); split; intros; try lia; eauto. }
  simpl in Hi. simpl lookup.
  destruct (decide (h < ROWS)) as [Hlt|Hge].
  - destruct (IH (setCell b (ROWS - 1 - h) c p) (h + 1)) with (i := i)
      as [Hland Hfull]; try done; try lia.
    + by apply wf_setCell.
    + intros r Hr. rewrite cell_setCell_ne; [apply Hempty; lia|lia|lia|].
      intros [= ?]. lia.
    + intros r Hr. destruct (decide (r = ROWS - 1 - h)) as [->|Hne].
      * rewrite cell_setCell_eq by (done || lia). congruence.
      * rewrite cell_setCell_ne; [apply Hfilled; lia|lia|lia|].
        intros [= ?]. lia.
    + split.
      * intros Hi'. destruct (Hland ltac:(lia)) as [b' Hb']. exists b'.
        rewrite Hb'. do 2 f_equal. lia.
      * intros Hi'. apply Hfull. lia.
  - destruct (IH b h) with (i := i) as [Hland Hfull]; try done; try lia.
    split; [lia|]. intros _. apply Hfull. lia.
Qed.

(** C3.  On a board whose column [c] is empty, of any number of
    attempts to drop a piece into [c] the first six land (on rows 5 down
    to 0) and the seventh and all later ones fail with the column full
    error. *)
Theorem column_full_exactly_after_six_drops
    (b : grid) (c : Z) (players : list Z) :
  wf_board b → 0 ≤ c < COLS →
  (∀ r, 0 ≤ r < ROWS → cell b r c = Some 0) →
  Forall (λ p, p ≠ 0) players →
  ∀ i : nat, (i < length players)%nat →
    ((i < 6)%nat →
       ∃ b', dropAll b c players !! i = Some (Landed (5 - Z.of_nat i) b'))
    ∧ ((6 ≤ i)%nat → dropAll b c players !! i = Some ColumnFullError).
Proof.
  intros Hwf Hc Hempty Hps i Hi.
  assert (0 ≤ 0 ≤ ROWS) as Hh by (unfold ROWS; lia).
  assert (∀ r, 0 ≤ r < ROWS - 0 → cell b r c = Some 0) as Hempty0.
  { intros r Hr. apply Hempty. lia. }
  assert (∀ r, ROWS - 0 ≤ r < ROWS → cell b r c ≠ Some 0) as Hfilled0.
  { intros r Hr. lia. }
  destruct (dropAll_on_stack players b c 0 Hwf Hc Hh Hempty0 Hfilled0 Hps i Hi)
    as [Hland Hfull].
  split.
  - intros Hi6.
    destruct (Hland ltac:(unfold ROWS; lia)) as [b' Hb'].
    exists b'.
    by replace (5 - Z.of_nat i) with (ROWS - 1 - 0 - Z.of_nat i)
      by (unfold ROWS; lia).
  - intros Hi6. apply Hfull. unfold ROWS. lia.
Qed.

Lemma column_full_exactly_after_six_drops_witness :
  ((5 < 6)%nat →
     ∃ b', dropAll sampleBoard 3 [1;2;1;2;1;2;1;2] !! 5%nat
           = Some (Landed (5 - Z.of_nat 5) b'))
  ∧ ((6 ≤ 6)%nat →
     dropAll sampleBoard 3 [1;2;1;2;1;2;1;2] !! 6%nat = Some ColumnFullError).
Proof.
  assert (wf_board sampleBoard) as Hwf by apply wf_sampleBoard.
  assert (0 ≤ 3 < COLS) as Hc by (unfold COLS; lia).
  assert (∀ r, 0 ≤ r < ROWS → cell sampleBoard r 3 = Some 0) as Hempty.
  { intros r Hr. unfold ROWS in Hr.
    assert (r = 0 ∨ r = 1 ∨ r = 2 ∨ r = 3 ∨ r = 4 ∨ r = 5) as Hcases by lia.
    destruct Hcases as [->|[->|[->|[->|[->| ->]]]]]; reflexivity. }
  assert (Forall (λ p, p ≠ 0) [1;2;1;2;1;2;1;2]) as Hps
    by (repeat constructor; lia).
  split.
  - apply (column_full_exactly_after_six_drops sampleBoard 3
             [1;2;1;2;1;2;1;2] Hwf Hc Hempty Hps 5%nat). simpl. lia.
  - apply (column_full_exactly_after_six_drops sampleBoard 3
             [1;2;1;2;1;2;1;2] Hwf Hc Hempty Hps 6%nat). simpl. lia.
Defined.

(** ** A full board *)

Lemma isBoardFull_cells (b : grid) :
  isBoardFull b = true ↔
  ∀ (i j : nat) row x, b !! i = Some row → row !! j = Some x → x ≠ 0.
Proof.
  unfold isBoardFull. rewrite forallb_forall. split.
  - intros Hfull i j row x Hrow Hx.
    apply list_elem_of_lookup_2, list_elem_of_In, Hfull in Hrow.
    rewrite forallb_forall in Hrow.
    apply list_elem_of_lookup_2, list_elem_of_In, Hrow in Hx.
    apply negb_true_iff, Z.eqb_neq in Hx. done.
  - intros Hcells row Hrow. apply forallb_forall. intros x Hx.
    apply list_elem_of_In, list_elem_of_lookup_1 in Hrow as [i Hi].
    apply list_elem_of_In, list_elem_of_lookup_1 in Hx as [j Hj].
    apply negb_true_iff, Z.eqb_neq. by eapply Hcells.
Qed.

(** C6.  [isBoardFull] answers true exactly when each of the 6 x 7 cells
    holds a piece, and false as soon as one cell is empty. *)
Theorem isBoardFull_iff_no_empty_cell (b : grid) :
  wf_board b →
  (isBoardFull b = true ↔
     ∀ r c, 0 ≤ r < ROWS → 0 ≤ c < COLS → nonEmpty b r c)
  ∧ ((∃ r c, 0 ≤ r < ROWS ∧ 0 ≤ c < COLS ∧ cell b r c = Some 0) →
     isBoardFull b = false).
Proof.
  intros Hwf.
  assert (isBoardFull b = true ↔
          ∀ r c, 0 ≤ r < ROWS → 0 ≤ c < COLS → nonEmpty b r c) as Hiff.
  { rewrite isBoardFull_cells. split.
    - intros Hcells r c Hr Hc.
      destruct (cell_inside b r c Hwf Hr Hc) as [v Hv].
      exists v. split; [done|].
      rewrite cell_lookup in Hv by lia.
      destruct (b !! Z.to_nat r) as [row|] eqn:Hrow; [|done].
      by eapply Hcells.
    - intros Hall i j row x Hrow Hx.
      assert (cell b (Z.of_nat i) (Z.of_nat j) = Some x) as Hcell.
      { rewrite cell_lookup, !Nat2Z.id, Hrow by lia. done. }
      destruct (cell_outside b (Z.of_nat i) (Z.of_nat j) Hwf) as [Hi Hj]; [eauto|].
      destruct (Hall _ _ Hi Hj) as (v & Hv & Hne). congruence. }
  split; [done|].
  intros (r & c & Hr & Hc & Hempty).
  destruct (isBoardFull b) eqn:Hfull; [|done].
  destruct Hiff as [Hiff _].
  destruct (Hiff eq_refl r c Hr Hc) as (v & Hv & Hne). congruence.
Qed.

Lemma isBoardFull_iff_no_empty_cell_witness :
  (isBoardFull sampleBoard = true ↔
     ∀ r c, 0 ≤ r < ROWS → 0 ≤ c < COLS → nonEmpty sampleBoard r c)
  ∧ ((∃ r c, 0 ≤ r < ROWS ∧ 0 ≤ c < COLS ∧ cell sampleBoard r c = Some 0) →
     isBoardFull sampleBoard = false).
Proof.
  apply (isBoardFull_iff_no_empty_cell sampleBoard). apply wf_sampleBoard.
Defined.

(** ** Gravity *)

Lemma reachable_wf (b : grid) : reachable b → wf_board b.
Proof.
  induction 1 as [|b col player r b' _ IH Hdrop]; [apply wf_emptyBoard|].
  apply dropLoop_Landed in Hdrop as (_ & _ & -> & _). by apply wf_setCell.
Qed.

Lemma reachable_stacked (b : grid) : reachable b → stacked b.
Proof.
  induction 1 as [|b col player r0 b' Hreach IH Hdrop].
  { intros r c Hr Hcell.
    destruct (cell_outside emptyBoard (r + 1) c wf_emptyBoard) as [Hr1 Hc]; [eauto|].
    unfold ROWS in Hr1. unfold COLS in Hc.
    assert (r = 0 ∨ r = 1 ∨ r = 2 ∨ r = 3 ∨ r = 4) as Hrs by lia.
    assert (c = 0 ∨ c = 1 ∨ c = 2 ∨ c = 3 ∨ c = 4 ∨ c = 5 ∨ c = 6) as Hcs
      by lia.
    destruct Hrs as [->|[->|[->|[->| ->]]]];
      destruct Hcs as [->|[->|[->|[->|[->|[->| ->]]]]]]; reflexivity. }
  pose proof (reachable_wf b Hreach) as Hwf.
  apply dropLoop_Landed in Hdrop as (Hr0 & Hempty & -> & Hbelow).
  rewrite Z2Nat.id in Hr0, Hbelow by done.
  assert (0 ≤ col < COLS) as Hcol.
  { apply (cell_outside b r0 col Hwf). eauto. }
  intros r c Hr Hcell.
  destruct (decide ((r + 1, c) = (r0, col))) as [[= Heq ->]|Hne1].
  - rewrite cell_setCell_ne by (lia || (intros [= ?]; lia)).
    apply IH; [done|]. by rewrite Heq.
  - rewrite cell_setCell_ne in Hcell by (lia || done).
    assert (0 ≤ r + 1 < ROWS) as Hr1.
    { apply (cell_outside b (r + 1) c Hwf). eauto. }
    destruct (decide ((r, c) = (r0, col))) as [[= -> ->]|Hne].
    + destruct (Hbelow (r0 + 1)); [lia|done].
    + rewrite cell_setCell_ne by (lia || done). by apply IH.
Qed.

(** C9.  On every board produced from the empty board by drops, the cell
    directly below a cell that holds a piece holds a piece too. *)
Theorem gravity_invariant (b : grid) (r c : Z) :
  reachable b → nonEmpty b r c → r + 1 < ROWS → nonEmpty b (r + 1) c.
Proof.
  intros Hreach (v & Hv & Hne) Hr1.
  pose proof (reachable_wf b Hreach) as Hwf.
  destruct (cell_outside b r c Hwf) as [Hr Hc]; [eauto|].
  apply nonEmpty_iff; [done|lia|done|].
  intros Hbelow. apply (reachable_stacked b Hreach) in Hbelow; [|lia].
  congruence.
Qed.

Lemma gravity_invariant_witness :
  nonEmpty (setCell (setCell emptyBoard 5 3 1) 4 3 2) (4 + 1) 3.
Proof.
  apply (gravity_invariant (setCell (setCell emptyBoard 5 3 1) 4 3 2) 4 3).
  - apply (reachable_drop (setCell emptyBoard 5 3 1) 3 2 4); [|reflexivity].
    apply (reachable_drop emptyBoard 3 1 5); [|reflexivity].
    apply reachable_empty.
  - exists 2. split; [reflexivity | lia].
  - unfold ROWS. lia.
Defined.

(** ** Counting along a direction *)

Lemma loop_condition_holds (b : grid) (player r c : Z) :
  (r >=? 0) && (r <? ROWS) && (c >=? 0) && (c <? COLS)
    && strictEq (cell b r c) player = true
  ↔ holds b player r c.
Proof.
  unfold holds. rewrite !andb_true_iff, strictEq_true.
  rewrite !Z.geb_le, !Z.ltb_lt. tauto.
Qed.

Lemma loop_condition_fails (b : grid) (player r c : Z) :
  (r >=? 0) && (r <? ROWS) && (c >=? 0) && (c <? COLS)
    && strictEq (cell b r c) player = false
  ↔ ¬ holds b player r c.
Proof. rewrite <- loop_condition_holds. symmetry. apply not_true_iff_false. Qed.

(** What the loop returns: it has counted the cells it walked over. *)
Lemma countLoop_Some (fuel : nat) (b : grid) (r c dr dc player cnt n : Z) :
  countLoop fuel b r c dr dc player cnt = Some n →
  cnt ≤ n
  ∧ (∀ k, 0 ≤ k < n - cnt → holds b player (r + k * dr) (c + k * dc))
  ∧ ¬ holds b player (r + (n - cnt) * dr) (c + (n - cnt) * dc).
Proof.
  revert r c cnt. induction fuel as [|fuel IH]; intros r c cnt; simpl; [done|].
  destruct ((r >=? 0) && (r <? ROWS) && (c >=? 0) && (c <? COLS)
            && strictEq (cell b r c) player) eqn:Hcond.
  - apply loop_condition_holds in Hcond. intros Hloop.
    destruct (IH _ _ _ Hloop) as (Hle & Hrun & Hstop).
    split; [lia|]. split.
    + intros k Hk. destruct (decide (k = 0)) as [->|Hk0].
      * by rewrite !Z.mul_0_l, !Z.add_0_r.
      * replace (r + k * dr) with (r + dr + (k - 1) * dr) by lia.
        replace (c + k * dc) with (c + dc + (k - 1) * dc) by lia.
        apply Hrun. lia.
    + replace (r + (n - cnt) * dr) with (r + dr + (n - (cnt + 1)) * dr) by lia.
      by replace (c + (n - cnt) * dc) with (c + dc + (n - (cnt + 1)) * dc) by lia.
  - apply loop_condition_fails in Hcond. intros [= <-].
    split; [lia|]. split; [intros k Hk; lia|].
    by rewrite Z.sub_diag, !Z.mul_0_l, !Z.add_0_r.
Qed.

Lemma countDirection_Some (fuel : nat) (b : grid) (r c dr dc player n : Z) :
  countDirection fuel b r c dr dc player = Some n →
  runLength b player r c dr dc n.
Proof.
  intros Hcount. apply countLoop_Some in Hcount as (Hle & Hrun & Hstop).
  split; [done|]. split.
  - intros k Hk.
    replace (r + k * dr) with (r + dr + (k - 1) * dr) by lia.
    replace (c + k * dc) with (c + dc + (k - 1) * dc) by lia.
    apply Hrun. lia.
  - replace (r + (n + 1) * dr) with (r + dr + (n - 0) * dr) by lia.
    by replace (c + (n + 1) * dc) with (c + dc + (n - 0) * dc) by lia.
Qed.

Lemma countLoop_total (fuel : nat) (b : grid) (r c dr dc player cnt : Z) :
  dr ≠ 0 ∨ dc ≠ 0 →
  (0 < fuel)%nat →
  (holds b player r c → distance dr dc r c < Z.of_nat fuel) →
  is_Some (countLoop fuel b r c dr dc player cnt).
Proof.
  intros Hd. revert r c cnt.
  induction fuel as [|fuel IH]; intros r c cnt Hfuel Hdist; [lia|]. simpl.
  destruct ((r >=? 0) && (r <? ROWS) && (c >=? 0) && (c <? COLS)
            && strictEq (cell b r c) player) eqn:Hcond; [|eauto].
  apply loop_condition_holds in Hcond.
  pose proof (Hdist Hcond) as Hlt. destruct Hcond as (Hr & Hc & _).
  unfold distance in Hlt |- *.
  apply IH.
  - destruct (Z.ltb_spec 0 dr), (Z.ltb_spec dr 0), (Z.ltb_spec 0 dc); lia.
  - intros (Hr' & Hc' & _). unfold distance.
    destruct (Z.ltb_spec 0 dr), (Z.ltb_spec dr 0), (Z.ltb_spec 0 dc); lia.
Qed.

Lemma countDirection_total (fuel : nat) (b : grid) (r c dr dc player : Z) :
  dr ≠ 0 ∨ dc ≠ 0 → (8 ≤ fuel)%nat →
  is_Some (countDirection fuel b r c dr dc player).
Proof.
  intros Hd Hfuel. apply countLoop_total; [done|lia|].
  intros (Hr & Hc & _). unfold distance, ROWS, COLS in *.
  destruct (Z.ltb_spec 0 dr), (Z.ltb_spec dr 0), (Z.ltb_spec 0 dc); lia.
Qed.

Lemma runLength_unique (b : grid) (player row col dr dc n n' : Z) :
  runLength b player row col dr dc n →
  runLength b player row col dr dc n' → n = n'.
Proof.
  intros (Hn & Hrun & Hstop) (Hn' & Hrun' & Hstop').
  destruct (Z.lt_trichotomy n n') as [Hlt|[Heq|Hgt]]; [|done|].
  - destruct Hstop. apply Hrun'. lia.
  - destruct Hstop'. apply Hrun. lia.
Qed.

(** ** Winning lines *)

Lemma lineCount_Some (fuel : nat) (b : grid) (row col player dr dc : Z) :
  dr ≠ 0 ∨ dc ≠ 0 → (8 ≤ fuel)%nat →
  ∃ n1 n2,
    lineCount fuel b row col player (dr, dc) = Some (1 + n1 + n2)
    ∧ runLength b player row col dr dc n1
    ∧ runLength b player row col (- dr) (- dc) n2.
Proof.
  intros Hd Hfuel. unfold lineCount.
  destruct (countDirection_total fuel b row col dr dc player Hd Hfuel)
    as [n1 Hn1].
  destruct (countDirection_total fuel b row col (- dr) (- dc) player)
    as [n2 Hn2]; [lia|done|].
  exists n1, n2. rewrite Hn1, Hn2. simpl.
  split; [done|]. split; by eapply countDirection_Some.
Qed.

(** With the placed cell counted, a total of four or more is a line of
    four or more through it. *)
Lemma fourInLine_iff_total (b : grid) (player row col dr dc n1 n2 : Z) :
  holds b player row col →
  runLength b player row col dr dc n1 →
  runLength b player row col (- dr) (- dc) n2 →
  fourInLine b player row col (dr, dc) ↔ 4 ≤ 1 + n1 + n2.
Proof.
  intros Hcell (Hn1 & Hrun1 & Hstop1) (Hn2 & Hrun2 & Hstop2). split.
  - intros (lo & hi & Hlohi & Hlen & Hline). simpl in Hline.
    assert (hi ≤ n1).
    { destruct (Z.le_gt_cases hi n1) as [|Hgt]; [done|].
      destruct Hstop1. apply Hline. lia. }
    assert (- lo ≤ n2).
    { destruct (Z.le_gt_cases (- lo) n2) as [|Hgt]; [done|].
      destruct Hstop2.
      replace (row + (n2 + 1) * - dr) with (row + (- (n2 + 1)) * dr) by lia.
      replace (col + (n2 + 1) * - dc) with (col + (- (n2 + 1)) * dc) by lia.
      apply Hline. lia. }
    lia.
  - intros Htotal. exists (- n2), n1. split; [lia|]. split; [lia|].
    intros i Hi. simpl.
    destruct (Z.lt_trichotomy i 0) as [Hneg|[->|Hpos]].
    + replace (row + i * dr) with (row + (- i) * - dr) by lia.
      replace (col + i * dc) with (col + (- i) * - dc) by lia.
      apply Hrun2. lia.
    + by rewrite !Z.mul_0_l, !Z.add_0_r.
    + apply Hrun1. lia.
Qed.

Lemma checkDirections_Some
    (fuel : nat) (b : grid) (row col player : Z) (ds : list (Z * Z)) :
  (8 ≤ fuel)%nat →
  Forall (λ d, d.1 ≠ 0 ∨ d.2 ≠ 0) ds →
  ∃ w, checkDirections fuel b row col player ds = Some w
    ∧ (w = true ↔
       ∃ dr dc n1 n2, (dr, dc) ∈ ds
         ∧ runLength b player row col dr dc n1
         ∧ runLength b player row col (- dr) (- dc) n2
         ∧ 4 ≤ 1 + n1 + n2).
Proof.
  intros Hfuel. induction 1 as [|[dr dc] ds Hd _ IH]; simpl.
  { exists false. split; [done|]. split; [done|].
    intros (dr & dc & n1 & n2 & Hin & _). by apply elem_of_nil in Hin. }
  destruct (lineCount_Some fuel b row col player dr dc Hd Hfuel)
    as (n1 & n2 & Hcount & Hrun1 & Hrun2).
  unfold lineCount in Hcount. rewrite Hcount. simpl.
  destruct (Z.geb_spec (1 + n1 + n2) 4) as [Hge|Hlt].
  - exists true. split; [done|]. split; [|done]. intros _.
    exists dr, dc, n1, n2. split; [left|]. split; [done|]. split; [done|]. lia.
  - destruct IH as (w & Hw & Hiff). exists w. split; [done|].
    rewrite Hiff. split.
    + intros (dr' & dc' & n1' & n2' & Hin & Hruns).
      exists dr', dc', n1', n2'. split; [by right|done].
    + intros (dr' & dc' & n1' & n2' & Hin & Hrun1' & Hrun2' & Htotal).
      apply elem_of_cons in Hin as [[= -> ->]|Hin].
      * rewrite (runLength_unique _ _ _ _ _ _ _ _ Hrun1' Hrun1) in Htotal.
        rewrite (runLength_unique _ _ _ _ _ _ _ _ Hrun2' Hrun2) in Htotal.
        lia.
      * by exists dr', dc', n1', n2'.
Qed.

Lemma directions_nonzero : Forall (λ d : Z * Z, d.1 ≠ 0 ∨ d.2 ≠ 0) directions.
Proof. repeat constructor; simpl; lia. Qed.

Lemma checkWin_total (fuel : nat) (b : grid) (row col player : Z) :
  (8 ≤ fuel)%nat → is_Some (checkWin fuel b row col player).
Proof.
  intros Hfuel.
  destruct (checkDirections_Some fuel b row col player directions Hfuel
              directions_nonzero) as (w & Hw & _).
  by exists w.
Qed.

(** C2.  With enough fuel for the loops, [checkWin] at a cell that holds
    a piece of [player] returns, and returns true exactly when [player]
    has four or more adjacent cells through that cell along one of the
    four directions; this is the same as one direction having a total
    of four or more, the total being 1 plus the two run lengths on
    either side of the cell. *)
Theorem checkWin_iff_four_in_line
    (fuel : nat) (b : grid) (row col player : Z) :
  (8 ≤ fuel)%nat → wf_board b → cell b row col = Some player →
  ∃ w, checkWin fuel b row col player = Some w
    ∧ (w = true ↔ ∃ d, d ∈ directions ∧ fourInLine b player row col d)
    ∧ (w = true ↔
       ∃ dr dc n1 n2, (dr, dc) ∈ directions
         ∧ runLength b player row col dr dc n1
         ∧ runLength b player row col (- dr) (- dc) n2
         ∧ 4 ≤ 1 + n1 + n2).
Proof.
  intros Hfuel Hwf Hcell.
  assert (holds b player row col) as Hholds.
  { destruct (cell_outside b row col Hwf) as [Hr Hc]; [eauto|]. done. }
  destruct (checkDirections_Some fuel b row col player directions Hfuel
              directions_nonzero) as (w & Hw & Hiff).
  exists w. split; [done|]. split; [|done].
  rewrite Hiff. split.
  - intros (dr & dc & n1 & n2 & Hin & Hrun1 & Hrun2 & Htotal).
    exists (dr, dc). split; [done|].
    by apply (fourInLine_iff_total b player row col dr dc n1 n2).
  - intros ([dr dc] & Hin & Hline).
    assert (dr ≠ 0 ∨ dc ≠ 0) as Hd.
    { pose proof directions_nonzero as Hnz. rewrite Forall_forall in Hnz.
      apply (Hnz (dr, dc) Hin). }
    destruct (lineCount_Some fuel b row col player dr dc Hd Hfuel)
      as (n1 & n2 & _ & Hrun1 & Hrun2).
    exists dr, dc, n1, n2. split; [done|]. split; [done|]. split; [done|].
    by apply (fourInLine_iff_total b player row col dr dc n1 n2).
Qed.

Lemma checkWin_iff_four_in_line_witness :
  ∃ w, checkWin 8 (setCell sampleBoard 5 3 1) 5 3 1 = Some w
    ∧ (w = true ↔
       ∃ d, d ∈ directions ∧ fourInLine (setCell sampleBoard 5 3 1) 1 5 3 d)
    ∧ (w = true ↔
       ∃ dr dc n1 n2, (dr, dc) ∈ directions
         ∧ runLength (setCell sampleBoard 5 3 1) 1 5 3 dr dc n1
         ∧ runLength (setCell sampleBoard 5 3 1) 1 5 3 (- dr) (- dc) n2
         ∧ 4 ≤ 1 + n1 + n2).
Proof.
  apply (checkWin_iff_four_in_line 8 (setCell sampleBoard 5 3 1) 5 3 1).
  - lia.
  - apply wf_setCell, wf_sampleBoard.
  - reflexivity.
Defined.

(** ** The placed cell is never read *)

Section Agree.
Variables (b b' : grid) (row col : Z).
Hypothesis agree : ∀ r c, (r, c) ≠ (row, col) → cell b' r c = cell b r c.

Lemma countLoop_agree (fuel : nat) (dr dc player k cnt : Z) :
  dr ≠ 0 ∨ dc ≠ 0 → 1 ≤ k →
  countLoop fuel b' (row + k * dr) (col + k * dc) dr dc player cnt
  = countLoop fuel b (row + k * dr) (col + k * dc) dr dc player cnt.
Proof.
  intros Hd. revert k cnt.
  induction fuel as [|fuel IH]; intros k cnt Hk; simpl; [done|].
  rewrite agree by (intros [= Hr Hc]; nia).
  replace (row + k * dr + dr) with (row + (k + 1) * dr) by lia.
  replace (col + k * dc + dc) with (col + (k + 1) * dc) by lia.
  rewrite IH by lia. done.
Qed.

Lemma countDirection_agree (fuel : nat) (dr dc player : Z) :
  dr ≠ 0 ∨ dc ≠ 0 →
  countDirection fuel b' row col dr dc player
  = countDirection fuel b row col dr dc player.
Proof.
  intros Hd. unfold countDirection.
  pose proof (countLoop_agree fuel dr dc player 1 0 Hd) as Heq.
  rewrite !Z.mul_1_l in Heq. apply Heq. lia.
Qed.

Lemma checkDirections_agree (fuel : nat) (player : Z) (ds : list (Z * Z)) :
  Forall (λ d, d.1 ≠ 0 ∨ d.2 ≠ 0) ds →
  checkDirections fuel b' row col player ds
  = checkDirections fuel b row col player ds.
Proof.
  induction 1 as [|[dr dc] ds Hd _ IH]; simpl; [done|].
  rewrite !countDirection_agree by (simpl in Hd; lia).
  by rewrite IH.
Qed.
End Agree.

(** C10.  [checkWin] gives the same answer on two boards that differ
    only at [(row, col)]: it counts that cell as one without reading it.
    So on a board with three pieces of player 1 at the left of the empty
    cell [(5, 3)], [checkWin(5, 3, 1)] is true, and it is true as well
    when that cell holds a piece of player 2. *)
Theorem checkWin_never_reads_placed_cell :
  (∀ (fuel : nat) (b b' : grid) (row col player : Z),
     (∀ r c, (r, c) ≠ (row, col) → cell b' r c = cell b r c) →
     checkWin fuel b' row col player = checkWin fuel b row col player)
  ∧ (wf_board threeInARow
     ∧ cell threeInARow 5 3 = Some 0
     ∧ (∀ k, 1 ≤ k ≤ 3 → holds threeInARow 1 5 (3 - k))
     ∧ checkWin 8 threeInARow 5 3 1 = Some true
     ∧ cell (setCell threeInARow 5 3 2) 5 3 = Some 2
     ∧ checkWin 8 (setCell threeInARow 5 3 2) 5 3 1 = Some true).
Proof.
  split.
  - intros fuel b b' row col player Hagree.
    apply checkDirections_agree; [done|apply directions_nonzero].
  - split; [split; [done|repeat constructor]|].
    split; [done|]. split; [|done].
    intros k Hk. assert (k = 1 ∨ k = 2 ∨ k = 3) as [->|[->| ->]] by lia;
      (split; [unfold ROWS; lia|split; [unfold COLS; lia|reflexivity]]).
Qed.

(** ** The turn loop *)

(** The three ways a line of input is handled. *)
Lemma onLine_cases (fuel : nat) (s : state) (input : jsString) :
  (onLine fuel s input = Some (s, [invalidColumn])
   ∧ (parseInt input = None
      ∨ ∃ n, parseInt input = Some n ∧ ¬ 0 ≤ n - 1 < COLS))
  ∨ (onLine fuel s input = Some (s, [columnFull])
     ∧ ∃ col, parseInt input = Some (col + 1) ∧ 0 ≤ col < COLS
         ∧ dropPiece (board s) col (currentPlayer s) = ColumnFullError)
  ∨ (∃ col r b', legalMove s input col r b'
       ∧ onLine fuel s input
         = win ← checkWin fuel b' r col (currentPlayer s);
           Some (evaluate s b' win)).
Proof.
  unfold onLine. destruct (parseInt input) as [n|] eqn:Hparse;
    cbn [fmap option_fmap option_map].
  2: { left. split; [done|]. by left. }
  destruct (Z.ltb_spec (n - 1) 0) as [Hneg|Hpos]; cbn [orb].
  { left. split; [done|]. right. exists n. split; [done|]. lia. }
  destruct (Z.geb_spec (n - 1) COLS) as [Hbig|Hsmall].
  { left. split; [done|]. right. exists n. split; [done|]. lia. }
  assert (Some n = Some (n - 1 + 1)) as Hn by (f_equal; lia).
  destruct (dropPiece (board s) (n - 1) (currentPlayer s)) as [r b'|] eqn:Hdrop.
  - right. right. exists (n - 1), r, b'.
    split; [split; [congruence|split; [lia|done]]|done].
  - right. left. split; [done|].
    exists (n - 1). split; [congruence|]. split; [lia|done].
Qed.

(** The boards of the turn loop are boards that drops produce. *)
Lemma onLine_reachable
    (fuel : nat) (s s' : state) (input : jsString) (out : list output) :
  reachable (board s) → onLine fuel s input = Some (s', out) →
  reachable (board s').
Proof.
  intros Hreach Hline.
  destruct (onLine_cases fuel s input)
    as [[Hsame _]|[[Hsame _]|(col & r & b' & (_ & _ & Hdrop) & Hland)]];
    [congruence|congruence|].
  rewrite Hland in Hline.
  destruct (checkWin fuel b' r col (currentPlayer s)) as [win|]; [|done].
  injection Hline as Heq. apply (f_equal fst) in Heq. simpl in Heq. subst s'.
  assert (board (evaluate s b' win).1 = b') as ->.
  { unfold evaluate. destruct win; [done|]. by destruct (isBoardFull b'). }
  by eapply reachable_drop.
Qed.

Lemma askMove_reachable
    (fuel : nat) (inputs : list jsString) (s s' : state) (out : list output) :
  reachable (board s) → askMove fuel s inputs = Some (s', out) →
  reachable (board s').
Proof.
  revert s out. induction inputs as [|input rest IH]; intros s out Hreach; simpl.
  - destruct (playing s); by intros [= <- _].
  - destruct (playing s); [|by intros [= <- _]].
    destruct (onLine fuel s input) as [[s1 out1]|] eqn:Hline; simpl; [|done].
    destruct (askMove fuel s1 rest) as [[s2 out2]|] eqn:Hrest; simpl; [|done].
    intros [= <- _]. eapply IH; [|done]. by eapply onLine_reachable.
Qed.

(** C4.  A line that does not parse to a number, or that parses to one
    whose column is not on the grid, is answered with the invalid column
    message; board, current player and [playing] are what they were, and
    the next question is put to the same player. *)
Theorem invalid_input_changes_nothing
    (fuel : nat) (s : state) (input : jsString) (rest : list jsString) :
  playing s = true →
  parseInt input = None
    ∨ (∃ n, parseInt input = Some n ∧ ¬ 0 ≤ n - 1 < COLS) →
  onLine fuel s input = Some (s, [invalidColumn])
  ∧ askMove fuel s [input]
    = Some (s, [Question (prompt (currentPlayer s)); invalidColumn;
                Question (prompt (currentPlayer s))])
  ∧ askMove fuel s (input :: rest)
    = '(s', out) ← askMove fuel s rest;
      Some (s', Question (prompt (currentPlayer s)) :: invalidColumn :: out).
Proof.
  intros Hplaying Hbad.
  assert (onLine fuel s input = Some (s, [invalidColumn])) as Hline.
  { destruct (onLine_cases fuel s input)
      as [[Hline _]|[[_ (col & Hparse & Hcol & _)]
                    |(col & r & b' & (Hparse & Hcol & _) & _)]];
      [done|..];
      (destruct Hbad as [Hnone|(n & Hn & Hout)];
       [congruence|rewrite Hparse in Hn; injection Hn as <-; lia]). }
  split; [done|]. split.
  - simpl. rewrite Hplaying, Hline. simpl. by rewrite Hplaying.
  - simpl. rewrite Hplaying, Hline. simpl.
    by destruct (askMove fuel s rest) as [[s' out]|].
Qed.

Lemma invalid_input_changes_nothing_witness :
  onLine 8 initialState (codeUnits "9") = Some (initialState, [invalidColumn])
  ∧ askMove 8 initialState [codeUnits "9"]
    = Some (initialState,
            [Question (prompt (currentPlayer initialState)); invalidColumn;
             Question (prompt (currentPlayer initialState))])
  ∧ askMove 8 initialState [codeUnits "9"; codeUnits "x"]
    = '(s', out) ← askMove 8 initialState [codeUnits "x"];
      Some (s', Question (prompt (currentPlayer initialState))
                :: invalidColumn :: out).
Proof.
  apply (invalid_input_changes_nothing 8 initialState (codeUnits "9")
           [codeUnits "x"]).
  - reflexivity.
  - right. exists 9. split; [reflexivity | unfold COLS; lia].
Defined.

Lemma dropPiece_full_column (b : grid) (col player : Z) :
  (∀ r, 0 ≤ r < ROWS → nonEmpty b r col) →
  dropPiece b col player = ColumnFullError.
Proof.
  intros Hfull. apply dropLoop_ColumnFullError. intros r Hr.
  rewrite Z2Nat.id in Hr by done.
  destruct (Hfull r Hr) as (v & Hv & Hne). congruence.
Qed.

(** C5.  When the line names a column of the grid whose six cells all
    hold a piece, the drop fails with the column full error, the message
    says so, board, current player and [playing] are what they were, and
    the next question is put to the same player. *)
Theorem full_column_changes_nothing
    (fuel : nat) (s : state) (input : jsString) (col : Z) :
  playing s = true → wf_board (board s) →
  parseInt input = Some (col + 1) → 0 ≤ col < COLS →
  (∀ r, 0 ≤ r < ROWS → nonEmpty (board s) r col) →
  dropPiece (board s) col (currentPlayer s) = ColumnFullError
  ∧ onLine fuel s input = Some (s, [columnFull])
  ∧ askMove fuel s [input]
    = Some (s, [Question (prompt (currentPlayer s)); columnFull;
                Question (prompt (currentPlayer s))]).
Proof.
  intros Hplaying Hwf Hparse Hcol Hfull.
  pose proof (dropPiece_full_column _ col (currentPlayer s) Hfull) as Hdrop.
  assert (onLine fuel s input = Some (s, [columnFull])) as Hline.
  { destruct (onLine_cases fuel s input)
      as [[_ [Hnone|(n & Hn & Hout)]]|[[Hline _]
         |(col' & r & b' & (Hparse' & _ & Hdrop') & _)]].
    - congruence.
    - rewrite Hparse in Hn. injection Hn as <-. lia.
    - done.
    - rewrite Hparse in Hparse'. injection Hparse' as Heq.
      assert (col' = col) as -> by lia. congruence. }
  split; [done|]. split; [done|].
  simpl. rewrite Hplaying, Hline. simpl. by rewrite Hplaying.
Qed.

Lemma full_column_changes_nothing_witness :
  dropPiece columnTwoFull 2 1 = ColumnFullError
  ∧ onLine 8 (State columnTwoFull 1 true) (codeUnits "3")
    = Some (State columnTwoFull 1 true, [columnFull])
  ∧ askMove 8 (State columnTwoFull 1 true) [codeUnits "3"]
    = Some (State columnTwoFull 1 true,
            [Question (prompt 1); columnFull; Question (prompt 1)]).
Proof.
  apply (full_column_changes_nothing 8 (State columnTwoFull 1 true)
           (codeUnits "3") 2).
  - reflexivity.
  - split; [reflexivity|repeat constructor].
  - reflexivity.
  - unfold COLS. lia.
  - intros r Hr. unfold ROWS in Hr.
    assert (r = 0 ∨ r = 1 ∨ r = 2 ∨ r = 3 ∨ r = 4 ∨ r = 5) as Hcases by lia.
    destruct Hcases as [->|[->|[->|[->|[->| ->]]]]];
      (eexists; split; [reflexivity|lia]).
Defined.

Lemma legalMove_unique (s : state) (input : jsString)
    (col r col' r' : Z) (b' b'' : grid) :
  legalMove s input col r b' → legalMove s input col' r' b'' →
  col' = col ∧ r' = r ∧ b'' = b'.
Proof.
  intros (Hparse & _ & Hdrop) (Hparse' & _ & Hdrop').
  rewrite Hparse in Hparse'. injection Hparse' as Heq.
  assert (col' = col) as -> by lia.
  rewrite Hdrop in Hdrop'. by injection Hdrop' as <- <-.
Qed.

(** C7.  With enough fuel for [checkWin], the callback returns.  After a
    legal move it has asked [checkWin] at the landing cell first: on
    true the current player is announced winner and [playing] is false;
    only on false does [isBoardFull] decide, a full board being a draw
    with [playing] false; only when both are false does the other
    player become the current one.  And the current player changes on
    no line of input except a legal move that neither wins nor fills the
    board. *)
Theorem terminal_checks_then_toggle
    (fuel : nat) (s : state) (input : jsString) :
  (8 ≤ fuel)%nat →
  ∃ s' out,
    onLine fuel s input = Some (s', out)
    ∧ (∀ col r b', legalMove s input col r b' →
         ∃ win, checkWin fuel b' r col (currentPlayer s) = Some win
           ∧ board s' = b'
           ∧ (win = true →
                currentPlayer s' = currentPlayer s ∧ playing s' = false
                ∧ out = printBoard b' ++ [winner (currentPlayer s)])
           ∧ (win = false → isBoardFull b' = true →
                currentPlayer s' = currentPlayer s ∧ playing s' = false
                ∧ out = printBoard b' ++ [draw])
           ∧ (win = false → isBoardFull b' = false →
                currentPlayer s' = (if currentPlayer s =? 1 then 2 else 1)
                ∧ playing s' = playing s
                ∧ out = printBoard b'))
    ∧ (currentPlayer s' ≠ currentPlayer s ↔
         ∃ col r b', legalMove s input col r b'
           ∧ checkWin fuel b' r col (currentPlayer s) = Some false
           ∧ isBoardFull b' = false).
Proof.
  intros Hfuel.
  destruct (onLine_cases fuel s input)
    as [[Hline Hbad]|[[Hline (col & Hparse & Hcol & Hdrop)]
       |(col & r & b' & Hlegal & Hline)]].
  - exists s, [invalidColumn]. split; [done|]. split.
    + intros col r b' (Hparse & Hcol & _).
      destruct Hbad as [Hnone|(n & Hn & Hout)]; [congruence|].
      rewrite Hparse in Hn. injection Hn as <-. lia.
    + split; [done|]. intros (col & r & b' & (Hparse & Hcol & _) & _).
      destruct Hbad as [Hnone|(n & Hn & Hout)]; [congruence|].
      rewrite Hparse in Hn. injection Hn as <-. lia.
  - exists s, [columnFull]. split; [done|]. split.
    + intros col' r b' (Hparse' & _ & Hdrop').
      rewrite Hparse in Hparse'. injection Hparse' as Heq.
      assert (col' = col) as -> by lia. congruence.
    + split; [done|]. intros (col' & r & b' & (Hparse' & _ & Hdrop') & _).
      rewrite Hparse in Hparse'. injection Hparse' as Heq.
      assert (col' = col) as -> by lia. congruence.
  - destruct (checkWin_total fuel b' r col (currentPlayer s) Hfuel)
      as [win Hwin].
    rewrite Hwin in Hline. simpl in Hline.
    exists (evaluate s b' win).1, (evaluate s b' win).2.
    split; [by rewrite <- surjective_pairing|]. split.
    + intros col' r' b'' Hlegal'.
      destruct (legalMove_unique _ _ _ _ _ _ _ _ Hlegal Hlegal')
        as (-> & -> & ->).
      exists win. split; [done|]. unfold evaluate.
      destruct win; [by repeat split|].
      destruct (isBoardFull b'); by repeat split.
    + split.
      * intros Hchanged. exists col, r, b'. split; [done|].
        unfold evaluate in Hchanged.
        destruct win; [done|]. destruct (isBoardFull b'); done.
      * intros (col' & r' & b'' & Hlegal' & Hwin' & Hfull').
        destruct (legalMove_unique _ _ _ _ _ _ _ _ Hlegal Hlegal')
          as (-> & -> & ->).
        rewrite Hwin in Hwin'. injection Hwin' as ->.
        unfold evaluate. rewrite Hfull'. simpl.
        destruct (Z.eqb_spec (currentPlayer s) 1) as [->|]; [done|congruence].
Qed.

Lemma terminal_checks_then_toggle_witness :
  ∃ s' out,
    onLine 8 initialState (codeUnits "4") = Some (s', out)
    ∧ (∀ col r b', legalMove initialState (codeUnits "4") col r b' →
         ∃ win, checkWin 8 b' r col (currentPlayer initialState) = Some win
           ∧ board s' = b'
           ∧ (win = true →
                currentPlayer s' = currentPlayer initialState
                ∧ playing s' = false
                ∧ out = printBoard b' ++ [winner (currentPlayer initialState)])
           ∧ (win = false → isBoardFull b' = true →
                currentPlayer s' = currentPlayer initialState
                ∧ playing s' = false
                ∧ out = printBoard b' ++ [draw])
           ∧ (win = false → isBoardFull b' = false →
                currentPlayer s'
                = (if currentPlayer initialState =? 1 then 2 else 1)
                ∧ playing s' = playing initialState
                ∧ out = printBoard b'))
    ∧ (currentPlayer s' ≠ currentPlayer initialState ↔
         ∃ col r b', legalMove initialState (codeUnits "4") col r b'
           ∧ checkWin 8 b' r col (currentPlayer initialState) = Some false
           ∧ isBoardFull b' = false).
Proof.
  apply (terminal_checks_then_toggle 8 initialState (codeUnits "4")). lia.
Defined.

(** ** After the end of the game *)

Lemma askMove_stopped (fuel : nat) (s : state) (inputs : list jsString) :
  playing s = false → askMove fuel s inputs = Some (s, [Close]).
Proof. intros Hstopped. destruct inputs; simpl; by rewrite Hstopped. Qed.

Lemma askMove_more_input
    (fuel : nat) (before after : list jsString) (s0 s : state)
    (out : list output) :
  askMove fuel s0 before = Some (s, out) → playing s = false →
  askMove fuel s0 (before ++ after) = Some (s, out) ∧ last out = Some Close.
Proof.
  revert s0 out. induction before as [|input before IH]; intros s0 out.
  - simpl. destruct (playing s0) eqn:Hplaying.
    + intros [= <- <-] Hstopped. congruence.
    + intros [= <- <-] _. split; [|done]. by apply askMove_stopped.
  - simpl. destruct (playing s0) eqn:Hplaying.
    2: { intros [= <- <-] _. done. }
    destruct (onLine fuel s0 input) as [[s1 out1]|]; simpl; [|done].
    destruct (askMove fuel s1 before) as [[s2 out2]|] eqn:Hrest; simpl; [|done].
    intros [= <- <-] Hstopped.
    destruct (IH s1 out2 Hrest Hstopped) as [-> Hlast]. simpl.
    split; [done|].
    rewrite last_cons, last_app, Hlast. done.
Qed.

(** C8.  Once a run of the turn loop has set [playing] to false, it has
    closed the interface as its last action, and whatever is typed
    afterwards changes neither the state (so not the board) nor what
    was written: called in that state, [askMove] only closes the
    interface and returns. *)
Theorem game_over_is_final
    (fuel : nat) (s0 s : state) (before after : list jsString)
    (out : list output) :
  askMove fuel s0 before = Some (s, out) → playing s = false →
  askMove fuel s0 (before ++ after) = Some (s, out)
  ∧ last out = Some Close
  ∧ askMove fuel s after = Some (s, [Close]).
Proof.
  intros Hrun Hstopped.
  destruct (askMove_more_input fuel before after s0 s out Hrun Hstopped)
    as [Hmore Hlast].
  split; [done|]. split; [done|]. by apply askMove_stopped.
Qed.

Lemma game_over_is_final_witness :
  ∃ s out,
    askMove 8 initialState sampleGame = Some (s, out)
    ∧ playing s = false
    ∧ askMove 8 initialState (sampleGame ++ [codeUnits "5"]) = Some (s, out)
    ∧ last out = Some Close
    ∧ askMove 8 s [codeUnits "5"] = Some (s, [Close]).
Proof.
  assert (∃ s out, askMove 8 initialState sampleGame = Some (s, out)
                   ∧ playing s = false) as (s & out & Hrun & Hstopped).
  { eexists _, _. split; [vm_compute; reflexivity|reflexivity]. }
  exists s, out. split; [exact Hrun|]. split; [exact Hstopped|].
  apply (game_over_is_final 8 initialState s sampleGame [codeUnits "5"] out);
    assumption.
Defined.

(** * The whole game *)

(** ** Running the turn loop *)

Lemma onLine_total (fuel : nat) (s : state) (input : jsString) :
  (8 ≤ fuel)%nat → is_Some (onLine fuel s input).
Proof.
  intros Hfuel.
  destruct (onLine_cases fuel s input)
    as [[-> _]|[[-> _]|(col & r & b' & _ & ->)]]; [done|done|].
  destruct (checkWin_total fuel b' r col (currentPlayer s) Hfuel) as [win ->].
  done.
Qed.

Lemma askMove_total (fuel : nat) (inputs : list jsString) (s : state) :
  (8 ≤ fuel)%nat → is_Some (askMove fuel s inputs).
Proof.
  intros Hfuel. revert s. induction inputs as [|input rest IH]; intros s; simpl.
  - by destruct (playing s).
  - destruct (playing s); [|done].
    destruct (onLine_total fuel s input Hfuel) as [[s1 out1] ->]. simpl.
    destruct (IH s1) as [[s2 out2] ->]. done.
Qed.

(** What holds before a line is read and after it has been handled holds
    at the end of the run. *)
Lemma askMove_invariant (P : state → Prop) (fuel : nat) :
  (∀ s input s' out,
     P s → playing s = true → onLine fuel s input = Some (s', out) → P s') →
  ∀ inputs s s' out,
    P s → askMove fuel s inputs = Some (s', out) → P s'.
Proof.
  intros Hstep. induction inputs as [|input rest IH]; intros s s' out HP; simpl.
  - destruct (playing s); by intros [= <- _].
  - destruct (playing s) eqn:Hplaying; [|by intros [= <- _]].
    destruct (onLine fuel s input) as [[s1 out1]|] eqn:Hline; simpl; [|done].
    destruct (askMove fuel s1 rest) as [[s2 out2]|] eqn:Hrest; simpl; [|done].
    intros [= <- _]. eapply IH; [|done]. by eapply Hstep.
Qed.

(** A line of input leaves the state as it is, or a piece of the current
    player lands and the state is the one [evaluate] gives. *)
Lemma onLine_Some
    (fuel : nat) (s s' : state) (input : jsString) (out : list output) :
  onLine fuel s input = Some (s', out) →
  (s' = s ∧ (out = [invalidColumn] ∨ out = [columnFull]))
  ∨ ∃ col r win,
      0 ≤ r < ROWS ∧ 0 ≤ col < COLS
      ∧ cell (board s) r col = Some 0
      ∧ dropPiece (board s) col (currentPlayer s)
        = Landed r (setCell (board s) r col (currentPlayer s))
      ∧ checkWin fuel (setCell (board s) r col (currentPlayer s)) r col
          (currentPlayer s) = Some win
      ∧ (s', out)
        = evaluate s (setCell (board s) r col (currentPlayer s)) win.
Proof.
  intros Hline.
  destruct (onLine_cases fuel s input)
    as [[Hsame _]|[[Hsame _]|(col & r & b' & (_ & Hcol & Hdrop) & Hland)]].
  - left. rewrite Hsame in Hline. injection Hline as <- <-. eauto.
  - left. rewrite Hsame in Hline. injection Hline as <- <-. eauto.
  - right. rewrite Hland in Hline.
    destruct (checkWin fuel b' r col (currentPlayer s)) as [win|] eqn:Hwin;
      [|done].
    injection Hline as Heq.
    pose proof Hdrop as Hdrop'.
    apply dropLoop_Landed in Hdrop' as (Hr & Hempty & -> & _).
    rewrite Z2Nat.id in Hr by done.
    exists col, r, win. done.
Qed.

Lemma evaluate_board (s : state) (b' : grid) (win : bool) :
  board (evaluate s b' win).1 = b'.
Proof. unfold evaluate. destruct win; [done|]. by destruct (isBoardFull b'). Qed.

Lemma cell_setCell (b : grid) (r c v r' c' : Z) :
  wf_board b → 0 ≤ r < ROWS → 0 ≤ c < COLS →
  cell (setCell b r c v) r' c'
  = if decide ((r', c') = (r, c)) then Some v else cell b r' c'.
Proof.
  intros Hwf Hr Hc. destruct (decide ((r', c') = (r, c))) as [[= -> ->]|Hne].
  - by apply cell_setCell_eq.
  - apply cell_setCell_ne; [lia|lia|done].
Qed.

(** ** The state stays well formed *)

Lemma cell_emptyBoard (r c v : Z) : cell emptyBoard r c = Some v → v = 0.
Proof.
  intros Hv.
  destruct (cell_outside emptyBoard r c wf_emptyBoard) as [Hr Hc]; [eauto|].
  unfold ROWS in Hr. unfold COLS in Hc.
  assert (r = 0 ∨ r = 1 ∨ r = 2 ∨ r = 3 ∨ r = 4 ∨ r = 5) as Hrs by lia.
  assert (c = 0 ∨ c = 1 ∨ c = 2 ∨ c = 3 ∨ c = 4 ∨ c = 5 ∨ c = 6) as Hcs
    by lia.
  destruct Hrs as [->|[->|[->|[->|[->| ->]]]]];
    destruct Hcs as [->|[->|[->|[->|[->|[->| ->]]]]]];
    by injection Hv as <-.
Qed.

Lemma validState_initialState : validState initialState.
Proof.
  split; [apply wf_emptyBoard|]. split; [|by left].
  intros r c v Hv. left. by eapply cell_emptyBoard.
Qed.

Lemma onLine_validState
    (fuel : nat) (s s' : state) (input : jsString) (out : list output) :
  validState s → onLine fuel s input = Some (s', out) → validState s'.
Proof.
  intros (Hwf & Hcells & Hplayer) Hline.
  apply onLine_Some in Hline
    as [[-> _]|(col & r & win & Hr & Hcol & Hempty & _ & _ & Heq)]; [done|].
  assert (s' = (evaluate s (setCell (board s) r col (currentPlayer s)) win).1)
    as -> by by rewrite <- Heq.
  split; [|split].
  - rewrite evaluate_board. by apply wf_setCell.
  - rewrite evaluate_board. intros r' c' v. rewrite cell_setCell by done.
    case_decide; [|by apply Hcells]. intros [= <-]. lia.
  - unfold evaluate. destruct win; [done|].
    destruct (isBoardFull _); [done|]. simpl.
    destruct (currentPlayer s =? 1); lia.
Qed.

(** X1.  With enough fuel for [checkWin], the turn loop handles every
    list of input lines, whatever they contain, and the state it ends in
    has a 6 x 7 board whose cells are 0, 1 or 2 and a current player
    that is 1 or 2. *)
Theorem turn_loop_keeps_state_valid (fuel : nat) (inputs : list jsString) :
  (8 ≤ fuel)%nat →
  ∃ s out, askMove fuel initialState inputs = Some (s, out) ∧ validState s.
Proof.
  intros Hfuel.
  destruct (askMove_total fuel inputs initialState Hfuel) as [[s out] Hrun].
  exists s, out. split; [done|].
  apply (askMove_invariant validState fuel) in Hrun;
    [done| |apply validState_initialState].
  intros s0 input s1 out1 Hvalid _ Hline. by eapply onLine_validState.
Qed.

Lemma turn_loop_keeps_state_valid_witness :
  ∃ s out, askMove 8 initialState sampleGame = Some (s, out) ∧ validState s.
Proof. apply (turn_loop_keeps_state_valid 8 sampleGame). lia. Defined.

(** ** Pieces stay where they are *)

Lemma onLine_keeps_pieces
    (fuel : nat) (s s' : state) (input : jsString) (out : list output)
    (r c v : Z) :
  onLine fuel s input = Some (s', out) →
  cell (board s) r c = Some v → v ≠ 0 → cell (board s') r c = Some v.
Proof.
  intros Hline Hv Hne.
  apply onLine_Some in Hline
    as [[-> _]|(col & r0 & win & Hr0 & Hcol & Hempty & _ & _ & Heq)]; [done|].
  assert (s' = (evaluate s (setCell (board s) r0 col (currentPlayer s)) win).1)
    as -> by by rewrite <- Heq.
  rewrite evaluate_board, cell_setCell_ne; [done|lia|lia|].
  intros [= -> ->]. congruence.
Qed.

(** X2.  From any state, a cell that holds a piece holds the same piece
    after any run of the turn loop: pieces are neither moved, removed
    nor replaced. *)
Theorem pieces_are_never_overwritten
    (fuel : nat) (inputs : list jsString) (s s' : state) (out : list output)
    (r c v : Z) :
  askMove fuel s inputs = Some (s', out) →
  cell (board s) r c = Some v → v ≠ 0 →
  cell (board s') r c = Some v.
Proof.
  intros Hrun Hv Hne.
  apply (askMove_invariant (λ s1, cell (board s1) r c = Some v) fuel)
    in Hrun; [done| |done].
  intros s0 input s1 out1 Hv0 _ Hline. by eapply onLine_keeps_pieces.
Qed.

Lemma pieces_are_never_overwritten_witness :
  ∃ s' out,
    askMove 8 (State sampleBoard 2 true) [codeUnits "1"] = Some (s', out)
    ∧ cell (board s') 5 0 = Some 1.
Proof.
  assert (∃ s' out, askMove 8 (State sampleBoard 2 true) [codeUnits "1"]
                    = Some (s', out)) as (s' & out & Hrun).
  { eexists _, _. vm_compute. reflexivity. }
  exists s', out. split; [exact Hrun|].
  apply (pieces_are_never_overwritten 8 [codeUnits "1"]
           (State sampleBoard 2 true) s' out 5 0 1 Hrun).
  - reflexivity.
  - lia.
Defined.

(** ** Lines of four and the check at the landing cell *)

Lemma lineOfFour_fourInLine (b : grid) (player r c : Z) (d : Z * Z) (j : Z) :
  lineOfFour b player r c d → 0 ≤ j < 4 →
  fourInLine b player (r + j * d.1) (c + j * d.2) d.
Proof.
  intros Hline Hj. exists (- j), (3 - j). split; [lia|]. split; [lia|].
  intros i Hi.
  replace (r + j * d.1 + i * d.1) with (r + (j + i) * d.1) by lia.
  replace (c + j * d.2 + i * d.2) with (c + (j + i) * d.2) by lia.
  apply Hline. lia.
Qed.

Lemma fourInLine_hasLine (b : grid) (player row col : Z) (d : Z * Z) :
  d ∈ directions → fourInLine b player row col d → hasLine b player.
Proof.
  intros Hd (lo & hi & Hlohi & Hlen & Hcells).
  exists (row + lo * d.1), (col + lo * d.2), d. split; [done|].
  intros i Hi.
  replace (row + lo * d.1 + i * d.1) with (row + (lo + i) * d.1) by lia.
  replace (col + lo * d.2 + i * d.2) with (col + (lo + i) * d.2) by lia.
  apply Hcells. lia.
Qed.

(** What [checkWin] answers at a cell that holds a piece of [player]. *)
Lemma checkWin_Some_iff
    (fuel : nat) (b : grid) (row col player : Z) (w : bool) :
  (8 ≤ fuel)%nat → holds b player row col →
  checkWin fuel b row col player = Some w →
  w = true ↔ ∃ d, d ∈ directions ∧ fourInLine b player row col d.
Proof.
  intros Hfuel Hholds Hcheck.
  destruct (checkDirections_Some fuel b row col player directions Hfuel
              directions_nonzero) as (w' & Hw' & Hiff).
  unfold checkWin in Hcheck. rewrite Hw' in Hcheck. injection Hcheck as ->.
  rewrite Hiff. split.
  - intros (dr & dc & n1 & n2 & Hin & Hrun1 & Hrun2 & Htotal).
    exists (dr, dc). split; [done|].
    by apply (fourInLine_iff_total b player row col dr dc n1 n2).
  - intros ([dr dc] & Hin & Hline).
    assert (dr ≠ 0 ∨ dc ≠ 0) as Hd.
    { pose proof directions_nonzero as Hnz. rewrite Forall_forall in Hnz.
      apply (Hnz (dr, dc) Hin). }
    destruct (lineCount_Some fuel b row col player dr dc Hd Hfuel)
      as (n1 & n2 & _ & Hrun1 & Hrun2).
    exists dr, dc, n1, n2. split; [done|]. split; [done|]. split; [done|].
    by apply (fourInLine_iff_total b player row col dr dc n1 n2).
Qed.

(** A line of four either avoids a given cell or has it as one of its
    four cells. *)
Lemma lineOfFour_through (r c dr dc r0 c0 : Z) :
  (∀ i, 0 ≤ i < 4 → (r + i * dr, c + i * dc) ≠ (r0, c0))
  ∨ (∃ j, 0 ≤ j < 4 ∧ r0 = r + j * dr ∧ c0 = c + j * dc).
Proof.
  destruct (decide ((r + 0 * dr, c + 0 * dc) = (r0, c0))) as [[= <- <-]|H0];
    [right; exists 0; lia|].
  destruct (decide ((r + 1 * dr, c + 1 * dc) = (r0, c0))) as [[= <- <-]|H1];
    [right; exists 1; lia|].
  destruct (decide ((r + 2 * dr, c + 2 * dc) = (r0, c0))) as [[= <- <-]|H2];
    [right; exists 2; lia|].
  destruct (decide ((r + 3 * dr, c + 3 * dc) = (r0, c0))) as [[= <- <-]|H3];
    [right; exists 3; lia|].
  left. intros i Hi.
  assert (i = 0 ∨ i = 1 ∨ i = 2 ∨ i = 3) as [->|[->|[->| ->]]] by lia; done.
Qed.

(** A line of four on the board after a drop is a line through the
    landing cell, of the player who dropped, or was there before. *)
Lemma hasLine_after_drop (b : grid) (r0 c0 player p : Z) :
  wf_board b → 0 ≤ r0 < ROWS → 0 ≤ c0 < COLS →
  hasLine (setCell b r0 c0 player) p →
  (p = player
   ∧ ∃ d, d ∈ directions ∧ fourInLine (setCell b r0 c0 player) p r0 c0 d)
  ∨ hasLine b p.
Proof.
  intros Hwf Hr0 Hc0 (r & c & [dr dc] & Hd & Hline).
  destruct (lineOfFour_through r c dr dc r0 c0)
    as [Havoid|(j & Hj & -> & ->)].
  - right. exists r, c, (dr, dc). split; [done|].
    intros i Hi. destruct (Hline i Hi) as (Hr & Hc & Hcell).
    split; [done|]. split; [done|].
    rewrite cell_setCell_ne in Hcell; [done|lia|lia|]. by apply Havoid.
  - left. destruct (Hline j Hj) as (_ & _ & Hcell). simpl in Hcell.
    rewrite cell_setCell_eq in Hcell by done. injection Hcell as <-.
    split; [done|]. exists (dr, dc). split; [done|].
    by apply (lineOfFour_fourInLine _ _ r c (dr, dc) j).
Qed.

(** ** The game between two lines of input *)

(** The four ways a line of input is handled on a board where nobody
    has four in a line: nothing changes; the current player wins; the
    board is full; the other player is next. *)
Lemma onLine_outcome
    (fuel : nat) (s s' : state) (input : jsString) (out : list output) :
  (8 ≤ fuel)%nat → validState s → noLine (board s) →
  onLine fuel s input = Some (s', out) →
  (s' = s ∧ (out = [invalidColumn] ∨ out = [columnFull]))
  ∨ (currentPlayer s' = currentPlayer s ∧ playing s' = false
     ∧ out = printBoard (board s') ++ [winner (currentPlayer s)]
     ∧ hasLine (board s') (currentPlayer s))
  ∨ (currentPlayer s' = currentPlayer s ∧ playing s' = false
     ∧ out = printBoard (board s') ++ [draw]
     ∧ isBoardFull (board s') = true ∧ noLine (board s'))
  ∨ (currentPlayer s' = (if currentPlayer s =? 1 then 2 else 1)
     ∧ playing s' = playing s
     ∧ out = printBoard (board s')
     ∧ isBoardFull (board s') = false ∧ noLine (board s')).
Proof.
  intros Hfuel (Hwf & Hcells & Hplayer) Hnone Hline.
  apply onLine_Some in Hline
    as [Hsame|(col & r & win & Hr & Hcol & Hempty & _ & Hwin & Heq)];
    [by left|right].
  set (b' := setCell (board s) r col (currentPlayer s)) in *.
  assert (holds b' (currentPlayer s) r col) as Hholds.
  { split; [done|]. split; [done|]. by apply cell_setCell_eq. }
  pose proof (checkWin_Some_iff fuel b' r col (currentPlayer s) win
                Hfuel Hholds Hwin) as Hiff.
  assert (win = false → noLine b') as Hstill.
  { intros -> p Hp Hhas.
    destruct (hasLine_after_drop (board s) r col (currentPlayer s) p
                Hwf Hr Hcol Hhas) as [[-> Hthrough]|Hbefore].
    - apply Hiff in Hthrough. done.
    - by apply (Hnone p). }
  unfold evaluate in Heq. destruct win.
  - left. injection Heq as -> ->. cbn [board currentPlayer playing].
    split; [done|]. split; [done|]. split; [done|].
    destruct Hiff as [Hiff _]. destruct (Hiff eq_refl) as (d & Hd & Hfour).
    by eapply fourInLine_hasLine.
  - right. destruct (isBoardFull b') eqn:Hfull.
    + left. injection Heq as -> ->. cbn [board currentPlayer playing].
      repeat split; try done. by apply Hstill.
    + right. injection Heq as -> ->. cbn [board currentPlayer playing].
      repeat split; try done. by apply Hstill.
Qed.

Lemma gameState_initialState : gameState initialState.
Proof.
  split; [apply validState_initialState|]. split; [|done].
  intros _. split; [done|].
  intros p Hp (r & c & d & _ & Hline).
  destruct (Hline 0) as (_ & _ & Hcell); [lia|].
  apply cell_emptyBoard in Hcell. done.
Qed.

Lemma onLine_gameState
    (fuel : nat) (s s' : state) (input : jsString) (out : list output) :
  (8 ≤ fuel)%nat → gameState s → playing s = true →
  onLine fuel s input = Some (s', out) → gameState s'.
Proof.
  intros Hfuel (Hvalid & Hprogress & Hover) Hplaying Hline.
  pose proof (onLine_validState fuel s s' input out Hvalid Hline) as Hvalid'.
  destruct (Hprogress Hplaying) as [Hroom Hnone].
  destruct (onLine_outcome fuel s s' input out Hfuel Hvalid Hnone Hline)
    as [[-> _]|[(Hp & Hstop & _ & Hhas)|[(Hp & Hstop & _ & Hfull & Hnone')
       |(Hp & Hgo & _ & Hroom' & Hnone')]]].
  - done.
  - split; [done|]. split; [congruence|]. intros _. left. by rewrite Hp.
  - split; [done|]. split; [congruence|]. intros _. by right.
  - split; [done|]. split; [done|]. congruence.
Qed.

Lemma askMove_gameState
    (fuel : nat) (inputs : list jsString) (s s' : state) (out : list output) :
  (8 ≤ fuel)%nat → gameState s →
  askMove fuel s inputs = Some (s', out) → gameState s'.
Proof.
  intros Hfuel Hgame Hrun.
  apply (askMove_invariant gameState fuel) in Hrun; [done| |done].
  intros s0 input s1 out1 Hgame0 Hplaying Hline. by eapply onLine_gameState.
Qed.

(** X3.  As long as the turn loop of a game is asking for moves, the
    board has an empty cell and neither player has four in a line
    anywhere on it: checking the lines through the last piece only is
    enough. *)
Theorem game_in_progress_is_undecided (fuel : nat) (inputs : list jsString) :
  (8 ≤ fuel)%nat →
  ∃ s out,
    askMove fuel initialState inputs = Some (s, out)
    ∧ (playing s = true →
       isBoardFull (board s) = false
       ∧ ∀ p, p ≠ 0 → ¬ hasLine (board s) p).
Proof.
  intros Hfuel.
  destruct (askMove_total fuel inputs initialState Hfuel) as [[s out] Hrun].
  exists s, out. split; [done|].
  by destruct (askMove_gameState fuel inputs initialState s out Hfuel
                 gameState_initialState Hrun) as (_ & Hprogress & _).
Qed.

Lemma game_in_progress_is_undecided_witness :
  ∃ s out,
    askMove 8 initialState (map codeUnits ["4"; "4"; "3"]) = Some (s, out)
    ∧ (playing s = true →
       isBoardFull (board s) = false
       ∧ ∀ p, p ≠ 0 → ¬ hasLine (board s) p).
Proof.
  apply (game_in_progress_is_undecided 8 (map codeUnits ["4"; "4"; "3"])).
  lia.
Defined.

(** X4.  When the turn loop of a game has stopped, the current player
    is the one who moved last and has four in a line, or the board is
    full and neither player has four in a line. *)
Theorem game_over_is_decided (fuel : nat) (inputs : list jsString) :
  (8 ≤ fuel)%nat →
  ∃ s out,
    askMove fuel initialState inputs = Some (s, out)
    ∧ (playing s = false →
       hasLine (board s) (currentPlayer s)
       ∨ (isBoardFull (board s) = true
          ∧ ∀ p, p ≠ 0 → ¬ hasLine (board s) p)).
Proof.
  intros Hfuel.
  destruct (askMove_total fuel inputs initialState Hfuel) as [[s out] Hrun].
  exists s, out. split; [done|].
  by destruct (askMove_gameState fuel inputs initialState s out Hfuel
                 gameState_initialState Hrun) as (_ & _ & Hover).
Qed.

Lemma game_over_is_decided_witness :
  ∃ s out,
    askMove 8 initialState sampleGame = Some (s, out)
    ∧ (playing s = false →
       hasLine (board s) (currentPlayer s)
       ∨ (isBoardFull (board s) = true
          ∧ ∀ p, p ≠ 0 → ¬ hasLine (board s) p)).
Proof. apply (game_over_is_decided 8 sampleGame). lia. Defined.

(** ** What is printed *)

Lemma append_empty_r (t : string) : t +:+ "" = t.
Proof.
  induction t as [|a t IH]; [done|].
  change (String a t +:+ "") with (String a (t +:+ "")). by rewrite IH.
Qed.

Lemma append_assoc (t1 t2 t3 : string) :
  (t1 +:+ t2) +:+ t3 = t1 +:+ (t2 +:+ t3).
Proof.
  induction t1 as [|a t1 IH]; [done|].
  change (String a ((t1 +:+ t2) +:+ t3) = String a (t1 +:+ (t2 +:+ t3))).
  by rewrite IH.
Qed.

(** At most one of the three tests of the loop body succeeds. *)
Lemma cellStr_symbol (acc : string) (x : option Z) :
  cellStr acc x = acc +:+ symbol x.
Proof.
  unfold cellStr, symbol. destruct x as [n|]; simpl.
  - destruct (Z.eqb_spec n 0) as [->|]; simpl; [done|].
    destruct (Z.eqb_spec n 1) as [->|]; simpl; [done|].
    destruct (Z.eqb_spec n 2) as [->|]; [done|]. by rewrite append_empty_r.
  - by rewrite append_empty_r.
Qed.

Lemma fold_left_cellStr {A : Type} (f : A → option Z) (l : list A)
    (acc : string) :
  fold_left (λ acc c, cellStr acc (f c)) l acc
  = acc +:+ foldr (λ c rest, symbol (f c) +:+ rest) "" l.
Proof.
  revert acc. induction l as [|c l IH]; intros acc; simpl.
  - by rewrite append_empty_r.
  - by rewrite IH, cellStr_symbol, append_assoc.
Qed.

(** X5.  [printBoard] shows a row of the board as the symbols of its
    seven cells from left to right, where a cell that is neither 0, 1
    nor 2 has the empty symbol. *)
Theorem rowStr_shows_the_row (b : grid) (r : Z) :
  wf_board b → 0 ≤ r < ROWS →
  ∃ row,
    b !! Z.to_nat r = Some row
    ∧ rowStr b r = foldr (λ x rest, symbol (Some x) +:+ rest) "" row
    ∧ ∀ v, v ≠ 0 → v ≠ 1 → v ≠ 2 → symbol (Some v) = "".
Proof.
  intros Hwf Hr. destruct (wf_board_row b r Hwf Hr) as (row & Hrow & Hlen).
  exists row. split; [done|]. split.
  - unfold rowStr. rewrite fold_left_cellStr.
    change ("" +:+ ?t) with t.
    assert (∀ c, 0 ≤ c → cell b r c = row !! Z.to_nat c) as Hcell.
    { intros c Hc. by rewrite cell_lookup, Hrow by lia. }
    destruct row as [|x0 [|x1 [|x2 [|x3 [|x4 [|x5 [|x6 [|x7 row]]]]]]]];
      try discriminate Hlen.
    change (seqZ 0 COLS) with [0; 1; 2; 3; 4; 5; 6]. simpl foldr.
    by rewrite !Hcell by lia.
  - intros v H0 H1 H2. unfold symbol. simpl.
    destruct (Z.eqb_spec v 0); [done|]. destruct (Z.eqb_spec v 1); [done|].
    by destruct (Z.eqb_spec v 2).
Qed.

Lemma rowStr_shows_the_row_witness :
  ∃ row,
    sampleBoard !! Z.to_nat 5 = Some row
    ∧ rowStr sampleBoard 5 = foldr (λ x rest, symbol (Some x) +:+ rest) "" row
    ∧ ∀ v, v ≠ 0 → v ≠ 1 → v ≠ 2 → symbol (Some v) = "".
Proof.
  apply (rowStr_shows_the_row sampleBoard 5).
  - apply wf_sampleBoard.
  - unfold ROWS. lia.
Defined.

Lemma symbol_head (x : option Z) : symbol x = "" ∨ ∃ t, symbol x = "[" +:+ t.
Proof.
  unfold symbol.
  destruct (strictEq x 0); [right; by exists " ]"|].
  destruct (strictEq x 1); [right; by exists "🔴]"|].
  destruct (strictEq x 2); [right; by exists "🟡]"|]. by left.
Qed.

(** A row of the board never reads like an announcement: it is empty or
    begins with a bracket. *)
Lemma rowStr_head (b : grid) (r : Z) :
  rowStr b r = "" ∨ ∃ t, rowStr b r = "[" +:+ t.
Proof.
  unfold rowStr. rewrite fold_left_cellStr. change ("" +:+ ?t) with t.
  induction (seqZ 0 COLS) as [|c l IH]; [by left|].
  change (foldr ?f ?a (c :: l)) with (f c (foldr f a l)). cbv beta.
  destruct (symbol_head (cell b r c)) as [->|[t ->]]; [done|].
  right. exists (t +:+ foldr (λ c rest, symbol (cell b r c) +:+ rest) "" l).
  by rewrite append_assoc.
Qed.

Lemma printBoard_no_announcement (b : grid) (o : output) :
  o ∈ printBoard b → (∀ p, o ≠ winner p) ∧ o ≠ draw.
Proof.
  unfold printBoard. rewrite !elem_of_cons, elem_of_app, list_elem_of_fmap.
  rewrite list_elem_of_singleton.
  intros [->|[->|[(r & -> & _)| ->]]]; try (split; [intros p|]; discriminate).
  destruct (rowStr_head b r) as [->|[t ->]]; split; try intros p; discriminate.
Qed.

(** ** The announcements *)

Lemma winner_inj (p q : Z) :
  p = 1 ∨ p = 2 → q = 1 ∨ q = 2 → winner p = winner q → p = q.
Proof.
  intros [->| ->] [->| ->] Heq; try done; vm_compute in Heq; discriminate Heq.
Qed.

Lemma announcement_in_run (o : output) (q : string) (out1 out2 : list output) :
  o ∈ Question q :: out1 ++ out2 → o ≠ Question q → o ∈ out1 ∨ o ∈ out2.
Proof.
  rewrite elem_of_cons, elem_of_app. intros [->|Hin] Hne; done.
Qed.

Ltac not_announced H :=
  apply list_elem_of_singleton in H; discriminate H.

Lemma askMove_announcements
    (fuel : nat) (inputs : list jsString) (s s' : state) (out : list output) :
  (8 ≤ fuel)%nat → gameState s →
  askMove fuel s inputs = Some (s', out) →
  (∀ p, p = 1 ∨ p = 2 → winner p ∈ out →
        playing s' = false ∧ currentPlayer s' = p ∧ hasLine (board s') p)
  ∧ (draw ∈ out →
     playing s' = false ∧ isBoardFull (board s') = true ∧ noLine (board s'))
  ∧ (playing s = true → playing s' = false →
     winner (currentPlayer s') ∈ out ∨ draw ∈ out).
Proof.
  intros Hfuel. revert s out.
  induction inputs as [|input rest IH]; intros s out Hgame; simpl.
  { destruct (playing s) eqn:Hplaying; intros [= <- <-];
      (split; [intros p _ Hin; not_announced Hin|]);
      (split; [intros Hin; not_announced Hin|]); congruence. }
  destruct (playing s) eqn:Hplaying.
  2: { intros [= <- <-]. split; [intros p _ Hin; not_announced Hin|].
       split; [intros Hin; not_announced Hin|]. done. }
  destruct (onLine fuel s input) as [[s1 out1]|] eqn:Hline; simpl; [|done].
  destruct (askMove fuel s1 rest) as [[s2 out2]|] eqn:Hrest; simpl; [|done].
  intros [= <- <-].
  pose proof (onLine_gameState fuel s s1 input out1 Hfuel Hgame Hplaying Hline)
    as Hgame1.
  destruct (IH s1 out2 Hgame1 Hrest) as (IHw & IHd & IHstop).
  destruct Hgame as ((Hwf & Hcells & Hplayer) & Hprogress & _).
  destruct (Hprogress Hplaying) as [_ Hnone].
  destruct (onLine_outcome fuel s s1 input out1 Hfuel
              (conj Hwf (conj Hcells Hplayer)) Hnone Hline)
    as [[-> Hout1]|[(Hp & Hstop & -> & Hhas)|[(Hp & Hstop & -> & Hfull & Hnone')
       |(Hp & Hgo & -> & Hroom & Hnone')]]].
  - (* nothing changed *)
    assert (∀ o, (∃ p, o = winner p) ∨ o = draw → o ∉ out1) as Hout.
    { intros o Ho Hin.
      destruct Hout1 as [-> | ->]; apply list_elem_of_singleton in Hin;
        subst o; destruct Ho as [[p Ho]|Ho]; discriminate Ho. }
    split; [|split].
    + intros p Hp Hin. apply announcement_in_run in Hin as [Hin|Hin]; [| |done].
      * destruct (Hout (winner p)); eauto.
      * by apply IHw.
    + intros Hin. apply announcement_in_run in Hin as [Hin|Hin]; [| |done].
      * destruct (Hout draw); eauto.
      * by apply IHd.
    + intros _ Hstopped. rewrite !elem_of_cons, !elem_of_app.
      destruct (IHstop Hplaying Hstopped); eauto.
  - (* the current player has won *)
    rewrite (askMove_stopped fuel s1 rest Hstop) in Hrest.
    injection Hrest as <- <-.
    split; [|split].
    + intros p Hpp Hin. apply announcement_in_run in Hin as [Hin|Hin]; [| |done].
      * apply elem_of_app in Hin as [Hin|Hin].
        { apply printBoard_no_announcement in Hin as [Hin _].
          by destruct (Hin p). }
        apply list_elem_of_singleton, winner_inj in Hin; [|done..].
        subst p. by rewrite Hp.
      * not_announced Hin.
    + intros Hin. apply announcement_in_run in Hin as [Hin|Hin]; [| |done].
      * apply elem_of_app in Hin as [Hin|Hin].
        { by apply printBoard_no_announcement in Hin as [_ Hin]. }
        apply list_elem_of_singleton in Hin. discriminate Hin.
      * not_announced Hin.
    + intros _ _. left. rewrite Hp, elem_of_cons, !elem_of_app.
      right. left. right. by apply list_elem_of_singleton.
  - (* the board is full *)
    rewrite (askMove_stopped fuel s1 rest Hstop) in Hrest.
    injection Hrest as <- <-.
    split; [|split].
    + intros p Hpp Hin. apply announcement_in_run in Hin as [Hin|Hin]; [| |done].
      * apply elem_of_app in Hin as [Hin|Hin].
        { apply printBoard_no_announcement in Hin as [Hin _].
          by destruct (Hin p). }
        apply list_elem_of_singleton in Hin. discriminate Hin.
      * not_announced Hin.
    + done.
    + intros _ _. right. rewrite elem_of_cons, !elem_of_app.
      right. left. right. by apply list_elem_of_singleton.
  - (* the other player is next *)
    split; [|split].
    + intros p Hpp Hin. apply announcement_in_run in Hin as [Hin|Hin]; [| |done].
      * apply printBoard_no_announcement in Hin as [Hin _]. by destruct (Hin p).
      * by apply IHw.
    + intros Hin. apply announcement_in_run in Hin as [Hin|Hin]; [| |done].
      * by apply printBoard_no_announcement in Hin as [_ Hin].
      * by apply IHd.
    + intros _ Hstopped. rewrite !elem_of_cons, !elem_of_app.
      destruct (IHstop) as [Hin|Hin]; [congruence|done|eauto..].
Qed.

(** X6.  In a game, the message that player [p] wins is written only
    when [p] has four in a line on the board, the draw message only when
    the board is full and nobody has four in a line; the turn loop stops
    in both cases, and it never stops without one of the two. *)
Theorem announcements_are_right (fuel : nat) (inputs : list jsString) :
  (8 ≤ fuel)%nat →
  ∃ s out,
    askMove fuel initialState inputs = Some (s, out)
    ∧ (∀ p, p = 1 ∨ p = 2 → winner p ∈ out →
            playing s = false ∧ currentPlayer s = p ∧ hasLine (board s) p)
    ∧ (draw ∈ out →
       playing s = false ∧ isBoardFull (board s) = true
       ∧ ∀ p, p ≠ 0 → ¬ hasLine (board s) p)
    ∧ (playing s = false → winner (currentPlayer s) ∈ out ∨ draw ∈ out).
Proof.
  intros Hfuel.
  destruct (askMove_total fuel inputs initialState Hfuel) as [[s out] Hrun].
  exists s, out. split; [done|].
  destruct (askMove_announcements fuel inputs initialState s out Hfuel
              gameState_initialState Hrun) as (Hw & Hd & Hstop).
  split; [done|]. split; [done|]. by apply Hstop.
Qed.

Lemma announcements_are_right_witness :
  ∃ s out,
    askMove 8 initialState sampleGame = Some (s, out)
    ∧ (∀ p, p = 1 ∨ p = 2 → winner p ∈ out →
            playing s = false ∧ currentPlayer s = p ∧ hasLine (board s) p)
    ∧ (draw ∈ out →
       playing s = false ∧ isBoardFull (board s) = true
       ∧ ∀ p, p ≠ 0 → ¬ hasLine (board s) p)
    ∧ (playing s = false → winner (currentPlayer s) ∈ out ∨ draw ∈ out).
Proof. apply (announcements_are_right 8 sampleGame). lia. Defined.

(** ** Counting the pieces *)

Lemma filter_eq_insert (l : list Z) (i : nat) (v p : Z) :
  l !! i = Some 0 → v ≠ 0 →
  length (filter (λ x, x = v) (<[i := p]> l))
  = (length (filter (λ x, x = v) l) + if decide (p = v) then 1 else 0)%nat.
Proof.
  intros Hi Hv. pose proof (lookup_lt_Some _ _ _ Hi) as Hlt.
  rewrite insert_take_drop by done.
  assert (filter (λ x, x = v) l
          = filter (λ x, x = v) (take i l ++ 0 :: drop (S i) l)) as ->
    by by rewrite take_drop_middle.
  rewrite !filter_app, !filter_cons, !length_app.
  repeat case_decide; simpl; (lia || congruence).
Qed.

Lemma pieces_setCell (b : grid) (r c p v : Z) :
  0 ≤ r → 0 ≤ c → cell b r c = Some 0 → v ≠ 0 →
  pieces (setCell b r c p) v
  = (pieces b v + if decide (p = v) then 1 else 0)%nat.
Proof.
  intros Hr Hc Hcell Hv. rewrite cell_lookup in Hcell by done.
  unfold pieces, setCell.
  destruct (b !! Z.to_nat r) as [row|] eqn:Hrow; [|done]. simpl in Hcell.
  pose proof (lookup_lt_Some _ _ _ Hrow) as Hlt.
  rewrite insert_take_drop by done.
  assert (concat b
          = concat (take (Z.to_nat r) b ++ row :: drop (S (Z.to_nat r)) b))
    as -> by by rewrite take_drop_middle.
  rewrite !concat_app, !concat_cons, !filter_app, !length_app.
  rewrite (filter_eq_insert row (Z.to_nat c) v p Hcell Hv). lia.
Qed.

Lemma pieces_bound (b : grid) :
  wf_board b → (pieces b 1 + pieces b 2 ≤ 42)%nat.
Proof.
  intros [Hlen Hrows]. unfold pieces.
  assert (length (concat b) = 42%nat) as Hcells.
  { destruct b as [|r0 [|r1 [|r2 [|r3 [|r4 [|r5 [|r6 b]]]]]]];
      try discriminate Hlen.
    repeat (apply Forall_cons in Hrows as [? Hrows]).
    simpl. rewrite !length_app. simpl.
    change (Z.to_nat COLS) with 7%nat in *. lia. }
  rewrite <- Hcells. clear. induction (concat b) as [|x l IH]; [done|].
  rewrite !filter_cons. simpl.
  destruct (decide (x = 1)), (decide (x = 2)); simpl; lia.
Qed.

(** A line of input puts no piece on the board and prints no board, or
    it puts one piece of the current player on it, prints the board once
    and either stops the game or passes the turn. *)
Lemma onLine_pieces
    (fuel : nat) (s s' : state) (input : jsString) (out : list output) :
  onLine fuel s input = Some (s', out) →
  (s' = s ∧ clears out = 0%nat)
  ∨ ((∀ v, v ≠ 0 →
        pieces (board s') v
        = (pieces (board s) v
           + if decide (currentPlayer s = v) then 1 else 0)%nat)
     ∧ clears out = 1%nat
     ∧ ((playing s' = false ∧ currentPlayer s' = currentPlayer s)
        ∨ (playing s' = playing s
           ∧ currentPlayer s' = if currentPlayer s =? 1 then 2 else 1))).
Proof.
  intros Hline.
  apply onLine_Some in Hline
    as [[-> Hout]|(col & r & win & Hr & Hcol & Hempty & _ & _ & Heq)].
  { left. split; [done|]. by destruct Hout as [-> | ->]. }
  right. set (b' := setCell (board s) r col (currentPlayer s)) in *.
  assert (∀ v, v ≠ 0 →
            pieces b' v
            = (pieces (board s) v
               + if decide (currentPlayer s = v) then 1 else 0)%nat) as Hcount.
  { intros v Hv. apply pieces_setCell; [lia|lia|done|done]. }
  unfold evaluate in Heq. destruct win.
  - injection Heq as -> ->. cbn [board currentPlayer playing].
    split; [done|]. split; [reflexivity|by left].
  - destruct (isBoardFull b'); injection Heq as -> ->;
      cbn [board currentPlayer playing].
    + split; [done|]. split; [reflexivity|by left].
    + split; [done|]. split; [reflexivity|by right].
Qed.

Lemma clears_run (q : string) (out1 out2 : list output) :
  clears (Question q :: out1 ++ out2) = (clears out1 + clears out2)%nat.
Proof. unfold clears. simpl. by rewrite List.filter_app, length_app. Qed.

Lemma onLine_turnOrder
    (fuel : nat) (s s' : state) (input : jsString) (out : list output) :
  turnOrder s → playing s = true →
  onLine fuel s input = Some (s', out) → turnOrder s'.
Proof.
  unfold turnOrder. intros Hturn Hplaying Hline. rewrite Hplaying in Hturn.
  destruct (onLine_pieces fuel s s' input out Hline)
    as [[-> _]|(Hcount & _ & Hnext)]; [by rewrite Hplaying|].
  pose proof (Hcount 1 ltac:(lia)) as H1.
  pose proof (Hcount 2 ltac:(lia)) as H2.
  destruct Hturn as [[Hp Heq]|[Hp Heq]]; rewrite Hp in *;
    rewrite decide_True in * by done; rewrite decide_False in * by done;
    (destruct Hnext as [[-> ->]|[-> ->]]; [|rewrite Hplaying]);
    simpl; [left|right|right|left]; split; (done || lia).
Qed.

(** X7.  The players take turns: whenever a game asks for a move, it is
    player 1's turn if both players have as many pieces on the board and
    player 2's if player 1 has one more; when the game has stopped, the
    current player is still the one who made the last move. *)
Theorem players_take_turns (fuel : nat) (inputs : list jsString) :
  (8 ≤ fuel)%nat →
  ∃ s out, askMove fuel initialState inputs = Some (s, out) ∧ turnOrder s.
Proof.
  intros Hfuel.
  destruct (askMove_total fuel inputs initialState Hfuel) as [[s out] Hrun].
  exists s, out. split; [done|].
  apply (askMove_invariant turnOrder fuel) in Hrun; [done| |by left].
  intros s0 input s1 out1 Hturn Hplaying Hline. by eapply onLine_turnOrder.
Qed.

Lemma players_take_turns_witness :
  ∃ s out,
    askMove 8 initialState (map codeUnits ["4"; "9"; "4"; "3"])
    = Some (s, out)
    ∧ turnOrder s.
Proof.
  apply (players_take_turns 8 (map codeUnits ["4"; "9"; "4"; "3"])). lia.
Defined.

Lemma askMove_clears
    (fuel : nat) (inputs : list jsString) (s s' : state) (out : list output) :
  validState s → askMove fuel s inputs = Some (s', out) →
  (clears out + (pieces (board s) 1 + pieces (board s) 2)
   = pieces (board s') 1 + pieces (board s') 2)%nat.
Proof.
  revert s out. induction inputs as [|input rest IH]; intros s out Hvalid; simpl.
  - destruct (playing s); by intros [= <- <-].
  - destruct (playing s); [|by intros [= <- <-]].
    destruct (onLine fuel s input) as [[s1 out1]|] eqn:Hline; simpl; [|done].
    destruct (askMove fuel s1 rest) as [[s2 out2]|] eqn:Hrest; simpl; [|done].
    intros [= <- <-]. rewrite clears_run.
    pose proof (onLine_validState fuel s s1 input out1 Hvalid Hline) as Hvalid1.
    pose proof (IH s1 out2 Hvalid1 Hrest) as Hlater.
    destruct (onLine_pieces fuel s s1 input out1 Hline)
      as [[-> ->]|(Hcount & -> & _)]; [done|].
    rewrite (Hcount 1), (Hcount 2) in Hlater by lia.
    destruct Hvalid as (_ & _ & [Hp|Hp]); rewrite Hp in Hlater.
    + rewrite decide_True in Hlater by done.
      rewrite decide_False in Hlater by done. lia.
    + rewrite decide_False in Hlater by done.
      rewrite decide_True in Hlater by done. lia.
Qed.

(** X8.  In a game the board is printed once for each piece on it, so
    at most 42 times: a game has at most 42 moves, however many lines
    are typed. *)
Theorem game_has_at_most_42_moves (fuel : nat) (inputs : list jsString) :
  (8 ≤ fuel)%nat →
  ∃ s out,
    askMove fuel initialState inputs = Some (s, out)
    ∧ clears out = (pieces (board s) 1 + pieces (board s) 2)%nat
    ∧ (clears out ≤ 42)%nat.
Proof.
  intros Hfuel.
  destruct (askMove_total fuel inputs initialState Hfuel) as [[s out] Hrun].
  exists s, out. split; [done|].
  pose proof (askMove_clears fuel inputs initialState s out
                validState_initialState Hrun) as Hclears.
  change (pieces (board initialState) 1) with 0%nat in Hclears.
  change (pieces (board initialState) 2) with 0%nat in Hclears.
  assert (wf_board (board s)) as Hwf.
  { apply (askMove_invariant validState fuel) in Hrun as [Hwf _];
      [done| |apply validState_initialState].
    intros s0 input s1 out1 Hvalid _ Hline. by eapply onLine_validState. }
  pose proof (pieces_bound (board s) Hwf). lia.
Qed.

Lemma game_has_at_most_42_moves_witness :
  ∃ s out,
    askMove 8 initialState sampleGame = Some (s, out)
    ∧ clears out = (pieces (board s) 1 + pieces (board s) 2)%nat
    ∧ (clears out ≤ 42)%nat.
Proof. apply (game_has_at_most_42_moves 8 sampleGame). lia. Defined.

(** ** The counting loop at its limits *)

Lemma countLoop_zero_step (fuel : nat) (b : grid) (r c player cnt : Z) :
  holds b player r c → countLoop fuel b r c 0 0 player cnt = None.
Proof.
  intros Hholds. revert cnt. induction fuel as [|fuel IH]; intros cnt; [done|].
  simpl. apply loop_condition_holds in Hholds as ->.
  rewrite !Z.add_0_r. apply IH.
Qed.

(** X9.  With a step of zero on a cell that holds a piece of [player],
    the loop of [countDirection] never ends: whatever the number of
    tests it is allowed, it has not returned.  ([checkWin] only passes
    steps that are not zero.) *)
Theorem countDirection_zero_step_never_returns
    (fuel : nat) (b : grid) (r c player : Z) :
  holds b player r c → countDirection fuel b r c 0 0 player = None.
Proof.
  intros Hholds. unfold countDirection. rewrite !Z.add_0_r.
  by apply countLoop_zero_step.
Qed.

Lemma countDirection_zero_step_never_returns_witness :
  countDirection 1000 fourStacked 2 3 0 0 1 = None.
Proof.
  apply (countDirection_zero_step_never_returns 1000 fourStacked 2 3 1).
  split; [unfold ROWS; lia|]. split; [unfold COLS; lia|reflexivity].
Defined.

(** X10.  At a cell of the grid, the total that [checkWin] compares
    with 4 for a direction is at least 1 and at most 7, the width of the
    board. *)
Theorem line_count_is_between_1_and_7
    (fuel : nat) (b : grid) (row col player : Z) (d : Z * Z) (count : Z) :
  0 ≤ row < ROWS → 0 ≤ col < COLS → d ∈ directions →
  lineCount fuel b row col player d = Some count →
  1 ≤ count ≤ COLS.
Proof.
  intros Hrow Hcol Hd. unfold lineCount. destruct d as [dr dc].
  destruct (countDirection fuel b row col dr dc player) as [n1|] eqn:Hn1;
    [|done].
  destruct (countDirection fuel b row col (- dr) (- dc) player) as [n2|]
    eqn:Hn2; [|done].
  simpl. intros [= <-].
  apply countDirection_Some in Hn1 as (Hpos1 & Hrun1 & _).
  apply countDirection_Some in Hn2 as (Hpos2 & Hrun2 & _).
  assert (n1 = 0 ∨ holds b player (row + n1 * dr) (col + n1 * dc)) as Hend1.
  { destruct (decide (n1 = 0)); [by left|]. right. apply Hrun1. lia. }
  assert (n2 = 0 ∨ holds b player (row + n2 * - dr) (col + n2 * - dc))
    as Hend2.
  { destruct (decide (n2 = 0)); [by left|]. right. apply Hrun2. lia. }
  unfold directions in Hd. unfold holds, ROWS, COLS in *.
  repeat (apply elem_of_cons in Hd as [[= -> ->]|Hd]);
    [..|by apply elem_of_nil in Hd];
    destruct Hend1 as [->|(Hr1 & Hc1 & _)];
    destruct Hend2 as [->|(Hr2 & Hc2 & _)]; lia.
Qed.

Lemma line_count_is_between_1_and_7_witness :
  1 ≤ 4 ≤ COLS.
Proof.
  apply (line_count_is_between_1_and_7 8 fourStacked 2 3 1 (1, 0) 4).
  - unfold ROWS. lia.
  - unfold COLS. lia.
  - right. left.
  - reflexivity.
Defined.





(** ** What counts as a column number *)

Lemma parseInt_leading_blanks (blanks input : jsString) :
  Forall (λ u, isWhiteSpace u = true) blanks →
  parseInt (blanks ++ input) = parseInt input.
Proof.
  intros Hblanks. unfold parseInt.
  assert (trimStart (blanks ++ input) = trimStart input) as ->; [|done].
  induction Hblanks as [|u blanks Hu _ IH]; [done|]. simpl. by rewrite Hu.
Qed.

Lemma digitValue_not_decimal (u : N) :
  ¬ (48 ≤ u ≤ 57)%N → digitValue 10 u = None.
Proof.
  intros Hu. unfold digitValue.
  repeat match goal with
         | |- context [Z.leb ?a ?b] => destruct (Z.leb_spec a b)
         end; simpl;
    repeat match goal with
           | |- context [Z.ltb ?a ?b] => destruct (Z.ltb_spec a b)
           end; try done; lia.
Qed.

Lemma parseInt_digit_then_text (d u : N) (rest : jsString) :
  (49 ≤ d ≤ 57)%N → ¬ (48 ≤ u ≤ 57)%N →
  parseInt (d :: u :: rest) = parseInt [d].
Proof.
  intros Hd Hu. pose proof (digitValue_not_decimal u Hu) as Hstop.
  assert (d = 49 ∨ d = 50 ∨ d = 51 ∨ d = 52 ∨ d = 53 ∨ d = 54 ∨ d = 55
          ∨ d = 56 ∨ d = 57)%N as Hcases by lia.
  destruct Hcases as [->|[->|[->|[->|[->|[->|[->|[->| ->]]]]]]]];
    unfold parseInt;
    match goal with
    | |- context [trimStart (?d :: ?t)] =>
        change (trimStart (d :: t)) with (d :: t)
    end;
    cbn -[digitValue Z.mul Z.add Z.sub Z.of_N];
    rewrite Hstop; reflexivity.
Qed.

(** X12.  Only the number at the start of the line counts: white space
    before it is skipped and whatever follows its digits is ignored, so
    a line made of blanks, one digit from 1 to 9 and any text that does
    not begin with a digit is handled as that digit alone. *)
Theorem text_around_the_column_digit_is_ignored
    (fuel : nat) (s : state) (blanks : jsString) (d u : N) (rest : jsString) :
  Forall (λ b, isWhiteSpace b = true) blanks →
  (49 ≤ d ≤ 57)%N → ¬ (48 ≤ u ≤ 57)%N →
  onLine fuel s (blanks ++ d :: u :: rest) = onLine fuel s [d].
Proof.
  intros Hblanks Hd Hu. unfold onLine.
  by rewrite parseInt_leading_blanks, parseInt_digit_then_text.
Qed.

Lemma text_around_the_column_digit_is_ignored_witness :
  onLine 8 initialState (codeUnits "  3abc") = onLine 8 initialState [51%N].
Proof.
  apply (text_around_the_column_digit_is_ignored 8 initialState
           [32%N; 32%N] 51 97 [98%N; 99%N]).
  - repeat constructor.
  - lia.
  - lia.
Defined.

(** ** A board that is not full takes a piece *)

Lemma forallb_false {A : Type} (f : A → bool) (l : list A) :
  forallb f l = false → ∃ i x, l !! i = Some x ∧ f x = false.
Proof.
  induction l as [|y l IH]; simpl; [done|].
  destruct (f y) eqn:Hy; simpl.
  - intros Hl. destruct (IH Hl) as (i & x & Hi & Hx). by exists (S i), x.
  - intros _. by exists 0%nat, y.
Qed.

(** X13.  [isBoardFull] is false exactly when some column of the grid
    takes a piece: on a board that is not full the player who is asked
    always has a move, and on a full board every drop fails. *)
Theorem board_not_full_iff_some_drop_lands (b : grid) (player : Z) :
  wf_board b →
  isBoardFull b = false
  ↔ ∃ col r b', 0 ≤ col < COLS ∧ dropPiece b col player = Landed r b'.
Proof.
  intros Hwf. split.
  - intros Hfull. unfold isBoardFull in Hfull.
    apply forallb_false in Hfull as (i & row & Hrow & Hfull).
    apply forallb_false in Hfull as (j & x & Hx & Hzero).
    apply negb_false_iff, Z.eqb_eq in Hzero as ->.
    assert (cell b (Z.of_nat i) (Z.of_nat j) = Some 0) as Hcell.
    { rewrite cell_lookup, !Nat2Z.id, Hrow by lia. done. }
    destruct (cell_outside b (Z.of_nat i) (Z.of_nat j) Hwf) as [Hi Hj];
      [eauto|].
    exists (Z.of_nat j).
    destruct (dropPiece b (Z.of_nat j) player) as [r b'|] eqn:Hdrop;
      [by exists r, b'|].
    unfold dropPiece in Hdrop. rewrite dropLoop_ColumnFullError in Hdrop.
    destruct (Hdrop (Z.of_nat i)); [by rewrite Z2Nat.id|done].
  - intros (col & r & b' & Hcol & Hdrop).
    apply dropLoop_Landed in Hdrop as (Hr & Hempty & _ & _).
    destruct (isBoardFull b) eqn:Hfull; [|done].
    rewrite cell_lookup in Hempty by lia.
    destruct (b !! Z.to_nat r) as [row|] eqn:Hrow; [|done]. simpl in Hempty.
    rewrite isBoardFull_cells in Hfull.
    by destruct (Hfull _ _ _ _ Hrow Hempty).
Qed.

Lemma board_not_full_iff_some_drop_lands_witness :
  isBoardFull columnTwoFull = false
  ↔ ∃ col r b', 0 ≤ col < COLS ∧ dropPiece columnTwoFull col 1 = Landed r b'.
Proof.
  apply (board_not_full_iff_some_drop_lands columnTwoFull 1).
  split; [reflexivity|repeat constructor].
Defined.
